(** * nftmintalert: the mint scan of [processLogs] and its announcement gate

    A shallow embedding of [opensea/openseaapi.go] (the [opensea] client and
    the [main] package that follows it in the same file).  Pure code is
    embedded as functions; the calls that leave the process (S3, the Ethereum
    node, the OpenSea HTTP API, Twitter, Discord) read their answers from a
    [World] record and leave an [Event] in the trace of the run. *)

From Stdlib Require Import ZArith Ascii String List Sorting.Sorted.
From stdpp Require Import base tactics option list gmap strings pretty sorting.

Local Open Scope Z_scope.

(** ** go-ethereum: [common.Hash], [common.Address] *)

Module common.

(** A Go [byte]; every byte of a hash or of an address is in [0, 255]. *)
Definition byte := Z.

Definition HashLength : nat := 32.
Definition AddressLength : nat := 20.

(** [type Hash [32]byte] and [type Address [20]byte]. *)
Definition Hash := list byte.
Definition Address := list byte.

(** [encoding/hex]: [hextable[v>>4]], [hextable[v&0x0f]] for every byte. *)
Definition hextable : string := "0123456789abcdef".

Definition hexDigit (n : Z) : ascii :=
  default "0"%char (String.get (Z.to_nat n) hextable).

Fixpoint hexEncode (src : list byte) : string :=
  match src with
  | [] => EmptyString
  | v :: rest =>
      String (hexDigit (Z.shiftr v 4))
        (String (hexDigit (Z.land v 15)) (hexEncode rest))
  end.

(** [SetBytes]: a [b] longer than the array is cropped from the left, a
    shorter one is copied to the right end of the zeroed array. *)
Definition setBytes (n : nat) (b : list byte) : list byte :=
  let b' := drop (length b - n) b in
  replicate (n - length b') 0 ++ b'.

Definition BytesToHash (b : list byte) : Hash := setBytes HashLength b.
Definition BytesToAddress (b : list byte) : Address := setBytes AddressLength b.

(** [Hash.Hex]: ["0x"] and the lower-case digits. *)
Definition HashHex (h : Hash) : string := "0x" +:+ hexEncode h.

Definition asciiBytes (s : string) : list byte :=
  (λ c, Z.of_nat (nat_of_ascii c)) <$> list_ascii_of_string s.

(** The legacy Keccak-256 of [golang.org/x/crypto/sha3]: a library outside
    this repository, taken as given. *)
Class Keccak256 := keccak256 : list byte → list byte.

(** The loop body of [Address.checksumHex] at digit [k] (Go's [i-2]): a
    letter is put in upper case when the matching nibble of the hash of the
    lower-case digits is above 7. *)
Definition checksumChar (hash : list byte) (k : nat) (c : ascii) : ascii :=
  let hashByte := nth (k / 2)%nat hash 0 in
  let nibble := if Nat.even k then Z.shiftr hashByte 4 else Z.land hashByte 15 in
  if ((nat_of_ascii "9" <? nat_of_ascii c)%nat && (7 <? nibble))%bool
  then ascii_of_nat (nat_of_ascii c - 32)
  else c.

(** [Address.Hex]: the EIP-55 rendering. *)
Definition AddressHex `{!Keccak256} (a : Address) : string :=
  let digits := hexEncode a in
  let hash := keccak256 (asciiBytes digits) in
  "0x" +:+ string_of_list_ascii
             (imap (checksumChar hash) (list_ascii_of_string digits)).

End common.

(** ** go-ethereum: [types.Log], the fields [processLogs] reads *)

Module types.

Record Log := {
  Address : common.Address;
  Topics : list common.Hash;
  TxHash : common.Hash;
  BlockNumber : Z
}.

End types.

(** ** Package [opensea] *)

(** A Go [error], by its message. *)
Abbreviation error := string (only parsing).

(** [strings.ReplaceAll] for a non-empty [old]: the non-overlapping
    occurrences of [old] are replaced from the left; [skip] counts the bytes
    of a matched occurrence still to be passed over. *)
Fixpoint replaceFrom (skip : nat) (s old new : string) : string :=
  match s with
  | EmptyString => EmptyString
  | String c rest =>
      match skip with
      | S k => replaceFrom k rest old new
      | O =>
          if String.prefix old s
          then new +:+ replaceFrom (String.length old - 1) rest old new
          else String c (replaceFrom 0 rest old new)
      end
  end.

Definition ReplaceAll (s old new : string) : string := replaceFrom 0 s old new.

Module opensea.

(** [type endpoint string] and its constants. *)
Abbreviation endpoint := string (only parsing).

Definition retrieveSingleContractEndpoint : endpoint := "api/v1/asset_contract/{id}".
Definition retrieveCollectionStatsEndpoint : endpoint := "api/v1/collection/{id}/stats".
Definition idTag : string := "{id}".

(** [endpoint.url] and [endpoint.urlID]: [fmt.Sprintf("%s/%s", host, e)],
    and in [urlID] every [{id}] tag of the result replaced by [id]. *)
Definition url (e : endpoint) (host : string) : string := host +:+ "/" +:+ e.

Definition urlID (e : endpoint) (host id : string) : string :=
  let u := host +:+ "/" +:+ e in
  ReplaceAll u idTag id.

(** The fields of [OpenSeaCollection] that package [main] reads. *)
Record Collection_ := {
  ExternalURL : string;
  Slug : string;
  TwitterUsername : string
}.

Record OpenSeaCollection := {
  Collection : Collection_;
  Name : string;
  ExternalLink : string;
  ImageURL : string
}.

Record Client := {
  Authorizer : string;
  Host : string
}.

Definition ErrParameter : error := "opensea input parameter error".

(** What [c.Client.Do] answers, and what [ioutil.ReadAll] and
    [json.Unmarshal] make of the body: for a status other than 200 the error
    built from the body ([ErrorResponse] or [HTTPError]), for 200 the decoded
    collection and the decoder's error. *)
Record Response := {
  StatusCode : Z;
  ReadAllError : option error;
  ErrorOfBody : error;
  Decoded : OpenSeaCollection;
  DecodeError : option error
}.

End opensea.

(** ** Package [main]: constants and types *)

Definition newBlocks : Z := 50.
Definition contractAddressOpenSea : string := "0x7Be8076f4EA4A4AD08075C2508e481d6C946D12b".
Definition contractENS : string := "0x283Af0B28c62C092C9727F1Ee09c02CA627EB7F5".
Definition contractENS2 : string := "0x57f1887a8BF19b14fC0dF6Fd9B2acc9Af147eA85".
Definition nullAddress : string := "0x0000000000000000000000000000000000000000".
Definition topicTransfer : string :=
  "0xddf252ad1be2c89b69c2b068fc378daa952ba7f163c4a11628f55a4df523b3ef".

Record Status := { Recents : list string }.

Record TwitterKeys := {
  ConsumerKey : string;
  ConsumerSecret : string;
  Token : string;
  TokenSecret : string
}.

Record Pair := { Key : string; Value : Z }.

Definition PairList := list Pair.

(** Go's [int] on the 64-bit targets of the Lambda runtime. *)
Definition wrap64 (z : Z) : Z := (z + 2 ^ 63) mod 2 ^ 64 - 2 ^ 63.

(** ** The world outside the process *)

(** What [ioutil.ReadAll] and [json.Unmarshal] make of a stored object: the
    read error if any, the [Status] the decoder leaves behind when it starts
    from the zero [Status], and the decoder's error.  [encoding/json] leaves
    the target alone on a syntax error, but on a value of the wrong type it
    "skips that field and completes the unmarshaling as best it can", so an
    error can come with a [Status] that is not empty. *)
Record S3Object := {
  ReadError : option error;
  Unmarshaled : Status;
  UnmarshalError : option error
}.

(** The answers of the outside to the calls of a run, each a function of the
    call's arguments.  [Ranking] is what the Go runtime makes of
    [rankByWordCount]: the order in which [range] goes over the map and the
    order in which [sort.Sort], which is not stable, leaves pairs of equal
    count are its choice, not the program's. *)
Record World := {
  Environ : gmap string string;
  Ranking : gmap string Z → PairList;
  NewSession : option error;
  GetObject : string → string → error + S3Object;
  PutObject : string → string → Status → option error;
  Dial : string → option error;
  HeaderByNumber : error + Z;
  FilterLogs : Z → Z → error + list types.Log;
  NewRequest : string → option error;
  HttpDo : string → string → error + opensea.Response;
  CreateTweet : string → error + string;
  ParseInt : string → error + Z;
  NewWebhookAPI : Z → string → option error;
  WebhookGet : Z → string → option error;
  WebhookExecute : Z → string → string → string → error + Z
}.

(** [os.Getenv]: the empty string for a variable that is not set. *)
Definition Getenv (W : World) (key : string) : string :=
  default "" (Environ W !! key).

(** What a run does to the outside, in order. *)
Inductive Event :=
| EvLog (msg : string)
| EvPrint (msg : string)
| EvGetObject (bucket key : string)
| EvPutObject (bucket key : string) (status : Status)
| EvDial (url : string)
| EvHeaderByNumber
| EvFilterLogs (fromBlock toBlock : Z) (topic : string)
| EvHttpGet (url apiKey : string)
| EvCreateTweet (text : string)
| EvWebhookGet (id : Z) (token : string)
| EvWebhookExecute (id : Z) (token : string) (content image : string).

(** How a run can end before its last statement: a [return] of
    [processLogs], [log.Fatal] (which exits the process), or a panic. *)
Inductive Exit := Returned | Fatal | Panicked.

Inductive Result (A : Type) :=
| Done (a : A)
| Stop (e : Exit).
Arguments Done {A} a.
Arguments Stop {A} e.

#[export] Instance Exit_eq_dec : EqDecision Exit.
Proof. solve_decision. Defined.

#[export] Instance Result_eq_dec `{EqDecision A} : EqDecision (Result A).
Proof. solve_decision. Defined.

(** A computation: the events so far and how it went on. *)
Definition Run (A : Type) : Type := list Event * Result A.

#[export] Instance Run_ret : MRet Run := λ A a, ([], Done a).

#[export] Instance Run_bind : MBind Run := λ A B f m,
  match m with
  | (t, Done a) => let '(t', r) := f a in (t ++ t', r)
  | (t, Stop e) => (t, Stop e)
  end.

Definition emit (e : Event) : Run unit := ([e], Done ()).
Definition stop {A} (e : Exit) : Run A := ([], Stop e).
Definition logPrint (msg : string) : Run unit := emit (EvLog msg).
Definition fmtPrintln (msg : string) : Run unit := emit (EvPrint msg).

Definition trace {A} (m : Run A) : list Event := m.1.
Definition outcome {A} (m : Run A) : Result A := m.2.

Definition isPutObject (e : Event) : bool :=
  match e with EvPutObject _ _ _ => true | _ => false end.

Definition isLogging (e : Event) : bool :=
  match e with EvLog _ | EvPrint _ => true | _ => false end.

(** The calls to the two notification providers. *)
Definition isNotification (e : Event) : bool :=
  match e with
  | EvCreateTweet _ | EvWebhookGet _ _ | EvWebhookExecute _ _ _ _ => true
  | _ => false
  end.

(** ** Package [opensea]: [Client.AssetContract] *)

Definition AssetContract (W : World) (c : opensea.Client) (id : string)
    : Run (error + opensea.OpenSeaCollection) :=
  if decide (String.length id = 0%nat) then
    mret (inl ("collection stats: id is required: " +:+ opensea.ErrParameter))
  else
    let url := opensea.urlID opensea.retrieveSingleContractEndpoint (opensea.Host c) id in
    match NewRequest W url with
    | Some err => mret (inl ("collection stats: request: " +:+ err))
    | None =>
        emit (EvHttpGet url (opensea.Authorizer c));;
        match HttpDo W url (opensea.Authorizer c) with
        | inl err => mret (inl ("collection stats response: " +:+ err))
        | inr resp =>
            match opensea.ReadAllError resp with
            | Some err => mret (inl ("collection stats response read: " +:+ err))
            | None =>
                if decide (opensea.StatusCode resp ≠ 200) then
                  mret (inl (opensea.ErrorOfBody resp))
                else
                  match opensea.DecodeError resp with
                  | Some err =>
                      mret (inl ("collection stats raw response error decode: " +:+ err))
                  | None => mret (inr (opensea.Decoded resp))
                  end
            end
        end
    end.

(** ** Package [main]: the state store *)

(** [SetStatus]: one [PutObject] of the marshalled status; its error is
    logged. *)
Definition SetStatus (W : World) (status : Status) (s3bucket s3key : string)
    : Run unit :=
  emit (EvPutObject s3bucket s3key status);;
  match PutObject W s3bucket s3key status with
  | Some err => logPrint err
  | None => mret ()
  end.

(** [GetStatus]: the zero [Status] when [GetObject] fails; otherwise what the
    decoder left in [status], the read error logged and the decoder's error
    assigned to [err] and never looked at. *)
Definition GetStatus (W : World) (s3bucket s3key : string) : Run Status :=
  let status := {| Recents := [] |} in
  emit (EvGetObject s3bucket s3key);;
  match GetObject W s3bucket s3key with
  | inl err => logPrint err;; mret status
  | inr object =>
      match ReadError object with
      | Some err => logPrint err
      | None => mret ()
      end;;
      mret (Unmarshaled object)
  end.

(** ** Package [main]: ranking *)

(** [PairList.Less] on the two elements compared. *)
Definition Less (pi pj : Pair) : Prop := Value pi < Value pj.

(** [sort.Reverse]: "Less returns the opposite of the embedded
    implementation's Less method", that is [Less(j, i)]. *)
Definition Reverse (less : Pair → Pair → Prop) (pi pj : Pair) : Prop := less pj pi.

(** [sort.Sort]: a permutation in which no element is [less] than one before
    it; which one is left open for elements that compare equal ("the sort is
    not guaranteed to be stable"), here the one of a merge sort. *)
Definition sortSort (less : Pair → Pair → Prop)
    `{!∀ a b, Decision (less a b)} (data : PairList) : PairList :=
  merge_sort (λ a b, ¬ less b a) data.

#[export] Instance Less_dec a b : Decision (Less a b).
Proof. unfold Less. apply _. Defined.

#[export] Instance Reverse_dec less `{!∀ a b, Decision (less a b)} a b :
  Decision (Reverse less a b).
Proof. unfold Reverse. apply _. Defined.

(** The pairs of the map, in one of the orders in which [range] can go over
    it (Go leaves the order open). *)
Definition pairsOf (wordFrequencies : gmap string Z) : PairList :=
  (λ kv, {| Key := kv.1; Value := kv.2 |}) <$> map_to_list wordFrequencies.

(** [rankByWordCount]: the pairs of the map, sorted in reverse. *)
Definition rankByWordCount (wordFrequencies : gmap string Z) : PairList :=
  let pl := pairsOf wordFrequencies in
  sortSort (Reverse Less) pl.

(** ** Package [main]: the call-out decision and the two notifiers *)

Definition nl : string := String (ascii_of_nat 10) EmptyString.

Definition callOut (collection : opensea.OpenSeaCollection) (address : string)
    (count : Z) : Run bool :=
  if decide (address = contractENS2) then mret false
  else
    logPrint ("Checking for callout " +:+ address +:+ " (count " +:+ pretty count +:+ ")");;
    if decide (String.length (opensea.ExternalLink collection) = 0%nat
               ∧ String.length (opensea.TwitterUsername (opensea.Collection collection)) = 0%nat)
    then mret false
    else fmtPrintln "Call out";; mret true.

Definition sendDiscordWebhook (W : World) (collection : opensea.OpenSeaCollection)
    (count : Z) (webhookId webhookToken : string) : Run unit :=
  if decide (webhookId = "" ∨ webhookToken = "") then
    logPrint "Discord webhook Id and/or webhook token not configured."
  else
    match ParseInt W webhookId with
    | inl err => logPrint ("Invalid webhook ID: " +:+ err)
    | inr keyInt =>
        match NewWebhookAPI W keyInt webhookToken with
        | Some err => logPrint ("Discord webhook error: " +:+ err)
        | None =>
            emit (EvWebhookGet keyInt webhookToken);;
            match WebhookGet W keyInt webhookToken with
            | Some err => logPrint ("Discord webhook error: " +:+ err)
            | None =>
                let alert :=
                  "Mint Alert!" +:+ nl +:+ nl +:+ "**[" +:+ opensea.Name collection
                  +:+ "](" +:+ opensea.ExternalURL (opensea.Collection collection)
                  +:+ ")**" +:+ nl +:+ nl +:+ "**" +:+ pretty count
                  +:+ " minted** in **" +:+ pretty 10 +:+ " minutes**" +:+ nl in
                emit (EvWebhookExecute keyInt webhookToken alert (opensea.ImageURL collection));;
                match WebhookExecute W keyInt webhookToken alert (opensea.ImageURL collection) with
                | inl err => stop Panicked
                | inr msgID =>
                    logPrint ("Discord message sent. Message ID: " +:+ pretty msgID)
                end
            end
        end
    end.

Definition sendTweetV2 (W : World) (collection : opensea.OpenSeaCollection)
    (count : Z) (twitKey : TwitterKeys) : Run unit :=
  if decide (ConsumerKey twitKey = "") then
    logPrint "Twitter Consumer Key environment variable (TWITTER_CONSUMER_KEY) is not set."
  else if decide (ConsumerSecret twitKey = "") then
    logPrint "Twitter Consumer Secret environment variable (TWITTER_CONSUMER_SECRET) is not set."
  else if decide (Token twitKey = "") then
    logPrint "Twitter Token environment variable (TWITTER_TOKEN) is not set."
  else if decide (TokenSecret twitKey = "") then
    logPrint "Twitter Token Secret environment variable (TWITTER_TOKEN_SECRET) is not set."
  else
    let link := "https://opensea.io/collection/" +:+ opensea.Slug (opensea.Collection collection) in
    let status :=
      "NFTs Mint Alert: " +:+ pretty count +:+ " sold in 10 minutes. " +:+ nl
      +:+ "Head on over and have a look" +:+ nl +:+ " " +:+ link +:+ " " +:+ nl +:+ nl
      +:+ " #nft #nfts #nftcollection #nftcollectibles #nftminting #niftyscoops #NFTsales" in
    fmtPrintln "Callout to create tweet callout";;
    emit (EvCreateTweet status);;
    match CreateTweet W status with
    | inl err => logPrint ("Error sending tweet: " +:+ err);; fmtPrintln "null"
    | inr tweetResponse => fmtPrintln tweetResponse
    end.

(** ** Package [main]: [processLogs] *)

(** The first loop: a transaction hash not yet in [transHashList] is recorded
    and its entry appended to [transList]. *)
Fixpoint uniqueTransactions (logs : list types.Log)
    (transHashList : gmap string string) (transList : list types.Log)
    : gmap string string * list types.Log :=
  match logs with
  | [] => (transHashList, transList)
  | vLog :: rest =>
      let identifier := common.HashHex (types.TxHash vLog) in
      match transHashList !! identifier with
      | Some _ => uniqueTransactions rest transHashList transList
      | None =>
          uniqueTransactions rest
            (<[identifier := identifier]> transHashList) (transList ++ [vLog])
      end
  end.

Definition Deduplicator (logs : list types.Log) : list types.Log :=
  (uniqueTransactions logs ∅ []).2.

Section Scan.
Context `{!common.Keccak256}.

(** The tests of the second loop on one entry: [true] when the entry goes on
    to be counted, [false] on each [continue] and on an origin other than the
    null address.  [txLog.Topics[0]] is read before the number of topics is
    looked at: an entry without topics panics (index out of range). *)
Definition isMint (txLog : types.Log) : Run bool :=
  match types.Topics txLog !! 0%nat with
  | None => stop Panicked
  | Some topic0 =>
      let topic := common.HashHex (common.BytesToHash topic0) in
      let address := common.AddressHex (types.Address txLog) in
      if decide (topic ≠ topicTransfer) then mret false
      else if decide (length (types.Topics txLog) < 4)%nat then mret false
      else if decide (address = contractAddressOpenSea ∨ address = contractENS
                      ∨ address = contractENS2) then mret false
      else
        match types.Topics txLog !! 1%nat, types.Topics txLog !! 2%nat with
        | Some topic1, Some topic2 =>
            let fromAddr := common.AddressHex (common.BytesToAddress topic1) in
            mret (bool_decide (fromAddr = nullAddress))
        | _, _ => stop Panicked
        end
  end.

(** [count, _ := addressList[address]; count++; addressList[address] = count]. *)
Definition countMint (addressList : gmap string Z) (address : string)
    : gmap string Z :=
  let count := default 0 (addressList !! address) in
  <[address := wrap64 (count + 1)]> addressList.

(** The second loop, [for count, txLog := range transList]. *)
Fixpoint countMints (transList : list types.Log) (addressList : gmap string Z)
    : Run (gmap string Z) :=
  match transList with
  | [] => mret addressList
  | txLog :: rest =>
      mint ← isMint txLog;
      if mint : bool
      then countMints rest (countMint addressList (common.AddressHex (types.Address txLog)))
      else countMints rest addressList
  end.

End Scan.

(** The scan of [status.Recents] for [mint.Key] that sets [found]. *)
Fixpoint found (key : string) (recents : list string) : bool :=
  match recents with
  | [] => false
  | recent :: rest =>
      if decide (recent = "") then found key rest
      else if decide (key = recent) then true
      else found key rest
  end.

(** The values the third loop works with besides [status]. *)
Record Channels := {
  osclient : opensea.Client;
  discordWebhookId : string;
  discordWebhookToken : string;
  twitKey : TwitterKeys
}.

(** [osclient], the two Discord values and [twitKey], as [processLogs] sets
    them up between the second loop and the third. *)
Definition channels (W : World) (openseaKey : string) : Channels :=
  {| osclient := {| opensea.Host := "https://api.opensea.io";
                    opensea.Authorizer := openseaKey |};
     discordWebhookId := Getenv W "DISCORD_WEBHOOK_ID";
     discordWebhookToken := Getenv W "DISCORD_WEBHOOK_TOKEN";
     twitKey :=
       {| ConsumerKey := Getenv W "TWITTER_CONSUMER_KEY";
          ConsumerSecret := Getenv W "TWITTER_CONSUMER_SECRET";
          Token := Getenv W "TWITTER_TOKEN";
          TokenSecret := Getenv W "TWITTER_TOKEN_SECRET" |} |}.

(** The body of the third loop, [for index, mint := range mintlist]; its
    [return] on an [AssetContract] error leaves [processLogs]. *)
Definition announce (W : World) (ch : Channels) (status : Status) (mint : Pair)
    : Run Status :=
  if decide (Value mint > 100) then
    if found (Key mint) (Recents status) then mret status
    else
      r ← AssetContract W (osclient ch) (Key mint);
      match r with
      | inl err =>
          logPrint ("Opensea API error on contract " +:+ Key mint +:+ ": " +:+ err);;
          stop Returned
      | inr collection =>
          result ← callOut collection (Key mint) (Value mint);
          if result : bool then
            logPrint ("Sending tweet. Contract: " +:+ Key mint +:+ " Slug: "
                      +:+ opensea.Slug (opensea.Collection collection) +:+ " TwitterId: "
                      +:+ opensea.TwitterUsername (opensea.Collection collection));;
            sendTweetV2 W collection (Value mint) (twitKey ch);;
            sendDiscordWebhook W collection (Value mint)
              (discordWebhookId ch) (discordWebhookToken ch);;
            mret {| Recents := Recents status ++ [Key mint] |}
          else mret status
      end
  else mret status.

Fixpoint announceAll (W : World) (ch : Channels) (mintlist : PairList)
    (status : Status) : Run Status :=
  match mintlist with
  | [] => mret status
  | mint :: rest =>
      status' ← announce W ch status mint;
      announceAll W ch rest status'
  end.

(** [if len(status.Recents) > 200 { status.Recents = status.Recents[2:] }]. *)
Definition trimRecents (status : Status) : Status :=
  if decide (200 < length (Recents status))%nat
  then {| Recents := drop 2 (Recents status) |}
  else status.

(** The end of [processLogs]: trim, save, log. *)
Definition saveStatus (W : World) (status : Status) (s3bucket s3key : string)
    : Run unit :=
  SetStatus W (trimRecents status) s3bucket s3key;;
  logPrint "End".

Section ProcessLogs.
Context `{!common.Keccak256}.

(** [processLogs] after the reads of the four required variables.  The value
    of [rankByWordCount(addressList)] is the world's [Ranking]: which of the
    rankings of the map it is depends on the order of [range] and on what
    [sort.Sort] does with equal counts. *)
Definition scanAndAnnounce (W : World) (networkUrl s3bucket s3key openseaKey : string)
    : Run unit :=
  match NewSession W with
  | Some err => logPrint ("Unable to create a new session " +:+ err);; stop Returned
  | None =>
      status ← GetStatus W s3bucket s3key;
      emit (EvDial networkUrl);;
      match Dial W networkUrl with
      | Some err => logPrint err;; stop Returned
      | None =>
          emit EvHeaderByNumber;;
          match HeaderByNumber W with
          | inl err => logPrint err;; stop Fatal
          | inr toBlock =>
              let fromBlock := toBlock - newBlocks in
              logPrint ("Start block: " +:+ pretty fromBlock +:+ "   End block: "
                        +:+ pretty toBlock);;
              logPrint "Querying...";;
              emit (EvFilterLogs fromBlock toBlock topicTransfer);;
              match FilterLogs W fromBlock toBlock with
              | inl err => logPrint err;; stop Fatal
              | inr logs =>
                  logPrint ("Log entries to process: " +:+ pretty (length logs));;
                  let '(transHashList, transList) := uniqueTransactions logs ∅ [] in
                  logPrint ("Unique transactions to process: "
                            +:+ pretty (size transHashList));;
                  addressList ← countMints transList ∅;
                  let mintlist := Ranking W addressList in
                  status' ← announceAll W (channels W openseaKey) mintlist status;
                  saveStatus W status' s3bucket s3key
              end
          end
      end
  end.

Definition processLogs (W : World) : Run unit :=
  let networkUrl := Getenv W "ETH_NETWORK_URL" in
  if decide (networkUrl = "") then
    logPrint "Ethereum network URL environment variable (ETH_NETWORK_URL) is not set.";;
    stop Returned
  else
    let s3bucket := Getenv W "S3_BUCKET" in
    if decide (s3bucket = "") then
      logPrint "S3 Bucket environment variable (S3_BUCKET) is not set.";;
      stop Returned
    else
      let s3key := Getenv W "S3_FILE_KEY" in
      if decide (s3key = "") then
        logPrint "S3 Key environment variable (S3_FILE_KEY) is not set.";;
        stop Returned
      else
        let openseaKey := Getenv W "OPENSEA_API_KEY" in
        if decide (s3key = "") then
          logPrint "Opensea Key environment variable (OPENSEA_API_KEY) is not set.";;
          stop Returned
        else scanAndAnnounce W networkUrl s3bucket s3key openseaKey.

End ProcessLogs.

(** ** The components of the specification, read off the code *)

(** A value a Go [byte] can hold. *)
Definition isByte (b : Z) : Prop := 0 ≤ b < 256.

(** The bytes [topicTransfer] is the rendering of. *)
Definition transferTopic : common.Hash :=
  [0xdd; 0xf2; 0x52; 0xad; 0x1b; 0xe2; 0xc8; 0x9b; 0x69; 0xc2; 0xb0; 0x68; 0xfc;
   0x37; 0x8d; 0xaa; 0x95; 0x2b; 0xa7; 0xf1; 0x63; 0xc4; 0xa1; 0x16; 0x28; 0xf5;
   0x5a; 0x4d; 0xf5; 0x23; 0xb3; 0xef].

(** An entry as the node delivers it: topics of 32 bytes each. *)
Definition wellFormed (txLog : types.Log) : Prop :=
  Forall (λ topic, length topic = common.HashLength ∧ Forall isByte topic)
    (types.Topics txLog).

(** The transaction identifier the first loop keys on. *)
Definition identifier (vLog : types.Log) : string :=
  common.HashHex (types.TxHash vLog).

(** "At most one entry per distinct transaction identifier (first occurrence
    wins)": an entry is kept and every later entry with its identifier is
    dropped. *)
Fixpoint firstOccurrences (logs : list types.Log) : list types.Log :=
  match logs with
  | [] => []
  | vLog :: rest =>
      vLog :: filter (λ other, identifier other ≠ identifier vLog)
                (firstOccurrences rest)
  end.

Definition sumZ (l : list Z) : Z := foldr Z.add 0 l.

(** The sum of the per-contract counts of a [MintRecord]. *)
Definition totalCount (addressList : gmap string Z) : Z :=
  sumZ (snd <$> map_to_list addressList).

(** A trace in which a notification provider is called. *)
Definition notifies (t : list Event) : Prop := Exists (λ e, isNotification e) t.

(** The statuses a trace saves, in order. *)
Definition savedStatuses (t : list Event) : list Status :=
  omap (λ e, match e with EvPutObject _ _ status => Some status | _ => None end) t.

(** A run that gets past the configuration checks and the log query, which
    answers [logs]. *)
Definition reachesScan (W : World) (logs : list types.Log) : Prop :=
  Getenv W "ETH_NETWORK_URL" ≠ "" ∧ Getenv W "S3_BUCKET" ≠ ""
  ∧ Getenv W "S3_FILE_KEY" ≠ ""
  ∧ NewSession W = None
  ∧ Dial W (Getenv W "ETH_NETWORK_URL") = None
  ∧ ∃ toBlock, HeaderByNumber W = inr toBlock
               ∧ FilterLogs W (toBlock - newBlocks) toBlock = inr logs.

(** What [rankByWordCount] can return for a map: its pairs, in an order in
    which no count is below a later one. *)
Definition ranks (wordFrequencies : gmap string Z) (mintlist : PairList) : Prop :=
  mintlist ≡ₚ pairsOf wordFrequencies
  ∧ StronglySorted (λ a b, Value b ≤ Value a) mintlist.

(** A world in which [rankByWordCount] returns such a ranking, whichever. *)
Definition ranksWell (W : World) : Prop :=
  ∀ wordFrequencies, ranks wordFrequencies (Ranking W wordFrequencies).

(** The address of a contract's metadata, written out. *)
Definition assetContractAddress (host id : string) : string :=
  host +:+ "/" +:+ "api/v1/asset_contract/" +:+ id.

(** The decoder left the status as it found it, as [json.Unmarshal] does with
    a body that is not valid JSON (it checks the whole input before it
    stores anything), a body cut short by a read error among them. *)
Definition leftUntouched (object : S3Object) : Prop :=
  Unmarshaled object = {| Recents := [] |}.

(** A trace without a save of the status. *)
Definition noSave (t : list Event) : Prop := Forall (λ e, ¬ isPutObject e) t.

(** A trace of log lines only. *)
Definition logsOnly (t : list Event) : Prop := Forall (λ e, isLogging e) t.

(** Every metadata request gets a 200 answer that decodes. *)
Definition metadataAvailable (W : World) : Prop :=
  ∀ url apiKey,
    NewRequest W url = None
    ∧ ∃ resp, HttpDo W url apiKey = inr resp
              ∧ opensea.StatusCode resp = 200
              ∧ opensea.ReadAllError resp = None
              ∧ opensea.DecodeError resp = None.

(** Every execution of the Discord webhook gets a message back. *)
Definition discordDelivers (W : World) : Prop :=
  ∀ id token content image,
    ∃ msgID, WebhookExecute W id token content image = inr msgID.

(** The entries of [recents] the [found] scan compares with. *)
Definition announced (recents : list string) : list string :=
  filter (λ recent, recent ≠ "") recents.

Section Components.
Context `{!common.Keccak256}.

Definition contractOf (txLog : types.Log) : string :=
  common.AddressHex (types.Address txLog).

(** The Mint Filter's output: the entries the second loop counts. *)
Definition MintFilter (transList : list types.Log) : list types.Log :=
  filter (λ txLog, outcome (isMint txLog) = Done true) transList.

(** What the specification asks of an entry of the Mint Filter's output. *)
Definition transferMint (txLog : types.Log) : Prop :=
  (∃ topic0, types.Topics txLog !! 0%nat = Some topic0
             ∧ common.HashHex (common.BytesToHash topic0) = topicTransfer)
  ∧ (4 ≤ length (types.Topics txLog))%nat
  ∧ (contractOf txLog ∉ [contractAddressOpenSea; contractENS; contractENS2])
  ∧ ∃ topic1, types.Topics txLog !! 1%nat = Some topic1
              ∧ common.AddressHex (common.BytesToAddress topic1) = nullAddress.

(** The same on the bytes of the entry: a transfer event with at least four
    topics, the low twenty bytes of the second of which are zero. *)
Definition mintBytes (txLog : types.Log) : Prop :=
  ∃ topic1 rest,
    types.Topics txLog = transferTopic :: topic1 :: rest
    ∧ (2 ≤ length rest)%nat
    ∧ drop 12 topic1 = replicate 20 0
    ∧ contractOf txLog ∉ [contractAddressOpenSea; contractENS; contractENS2].

(** The Aggregator: one [countMint] per filtered entry. *)
Definition Aggregator (mints : list types.Log) (addressList : gmap string Z)
    : gmap string Z :=
  foldl (λ m txLog, countMint m (contractOf txLog)) addressList mints.

End Components.

(** ** Example runs *)

(** A stand-in for Keccak-256 in the examples.  The example contracts have
    addresses of decimal digits only, which [Address.Hex] leaves as they are
    whatever the hash. *)
Definition exampleKeccak : common.Keccak256 := λ _, replicate 32 0.

(** The [n]-th mint of the contract whose twenty address bytes are all
    [contract]: an ERC-721 transfer from the null address, in a transaction of
    its own. *)
Definition mintLog (contract : Z) (n : nat) : types.Log :=
  {| types.Address := replicate 20 contract;
     types.Topics := [transferTopic; replicate 32 0; replicate 32 9;
                      replicate 31 0 ++ [Z.of_nat n]];
     types.TxHash := replicate 30 0 ++ [contract; Z.of_nat n];
     types.BlockNumber := 1000 |}.

Definition mintsOf (contract : Z) (n : nat) : list types.Log :=
  mintLog contract <$> seq 0 n.

(** An ERC-20 transfer (three topics) and an entry without topics. *)
Definition erc20Log : types.Log :=
  {| types.Address := replicate 20 0x44;
     types.Topics := [transferTopic; replicate 32 0; replicate 32 9];
     types.TxHash := replicate 32 0x44;
     types.BlockNumber := 1000 |}.

Definition bareLog : types.Log :=
  {| types.Address := replicate 20 0x55;
     types.Topics := [];
     types.TxHash := replicate 32 0x55;
     types.BlockNumber := 1000 |}.

Definition exampleCollection : opensea.OpenSeaCollection :=
  {| opensea.Collection :=
       {| opensea.ExternalURL := "https://apes.example";
          opensea.Slug := "apes";
          opensea.TwitterUsername := "apes" |};
     opensea.Name := "Apes";
     opensea.ExternalLink := "https://apes.example";
     opensea.ImageURL := "https://apes.example/a.png" |}.

(** A collection with neither an external link nor a Twitter handle. *)
Definition bareCollection : opensea.OpenSeaCollection :=
  {| opensea.Collection :=
       {| opensea.ExternalURL := ""; opensea.Slug := "bare";
          opensea.TwitterUsername := "" |};
     opensea.Name := "Bare"; opensea.ExternalLink := ""; opensea.ImageURL := "" |}.

Definition okResponse : opensea.Response :=
  {| opensea.StatusCode := 200;
     opensea.ReadAllError := None;
     opensea.ErrorOfBody := "";
     opensea.Decoded := exampleCollection;
     opensea.DecodeError := None |}.

Definition requiredEnv : list (string * string) :=
  [("ETH_NETWORK_URL", "https://node.example"); ("S3_BUCKET", "alerts");
   ("S3_FILE_KEY", "status.json")].

Definition exampleWorld (env : list (string * string)) (stored : error + S3Object)
    (logs : list types.Log) (http : error + opensea.Response)
    (discord : error + Z) : World :=
  {| Environ := list_to_map env;
     Ranking := rankByWordCount;
     NewSession := None;
     GetObject := λ _ _, stored;
     PutObject := λ _ _ _, None;
     Dial := λ _, None;
     HeaderByNumber := inr 1000;
     FilterLogs := λ _ _, inr logs;
     NewRequest := λ _, None;
     HttpDo := λ _ _, http;
     CreateTweet := λ _, inr "{}";
     ParseInt := λ _, inr 7;
     NewWebhookAPI := λ _ _, None;
     WebhookGet := λ _ _, None;
     WebhookExecute := λ _ _ _ _, discord |}.

(** No stored status, no logs. *)
Definition worldQuiet : World :=
  exampleWorld (("OPENSEA_API_KEY", "k") :: requiredEnv) (inl "NoSuchKey") []
    (inr okResponse) (inr 1).

(** No stored status, 101 mints of one contract, and an OpenSea API that does
    not answer. *)
Definition worldFetchFails : World :=
  exampleWorld (("OPENSEA_API_KEY", "k") :: requiredEnv) (inl "NoSuchKey")
    (mintsOf 0x11 101) (inl "timeout") (inr 1).

(** The same mints, with [OPENSEA_API_KEY] not set. *)
Definition worldNoOpenseaKey : World :=
  exampleWorld requiredEnv (inl "NoSuchKey") (mintsOf 0x11 101)
    (inr okResponse) (inr 1).

(** The same mints, both channels configured, and a webhook execution that
    fails. *)
Definition worldDiscordFails : World :=
  exampleWorld
    ([("OPENSEA_API_KEY", "k"); ("DISCORD_WEBHOOK_ID", "7");
      ("DISCORD_WEBHOOK_TOKEN", "t"); ("TWITTER_CONSUMER_KEY", "ck");
      ("TWITTER_CONSUMER_SECRET", "cs"); ("TWITTER_TOKEN", "tk");
      ("TWITTER_TOKEN_SECRET", "ts")] ++ requiredEnv)
    (inl "NoSuchKey") (mintsOf 0x11 101) (inr okResponse) (inl "500").

(** A stored status of 200 addresses and three contracts with 101 mints each. *)
Definition twoHundred : list string := (λ n, "0xa" +:+ pretty n) <$> seq 0 200.

Definition worldThreeNew : World :=
  exampleWorld (("OPENSEA_API_KEY", "k") :: requiredEnv)
    (inr {| ReadError := None; Unmarshaled := {| Recents := twoHundred |};
            UnmarshalError := None |})
    (mintsOf 0x11 101 ++ mintsOf 0x22 101 ++ mintsOf 0x33 101)
    (inr okResponse) (inr 1).

(** The stored object [{"recents":["0xA",5]}]: the decoder keeps the string,
    leaves the second element at its zero value and reports the number. *)
Definition worldTypeMismatch : World :=
  exampleWorld (("OPENSEA_API_KEY", "k") :: requiredEnv)
    (inr {| ReadError := None;
            Unmarshaled := {| Recents := ["0xA"; ""] |};
            UnmarshalError :=
              Some "json: cannot unmarshal number into Go struct field Status.recents of type string" |})
    [] (inr okResponse) (inr 1).

(** ** The rest of the two packages *)

(** *** Package [opensea]: [Client.CollectionStats] *)

(** [OpenSeaStats] and its inner [Stats] struct, over the type of the
    [float64] fields. *)
Record Stats_ (float64 : Type) := {
  OneDayVolume : float64;
  OneDayChange : float64;
  OneDaySales : float64;
  OneDayAveragePrice : float64;
  SevenDayVolume : float64;
  SevenDayChange : float64;
  SevenDaySales : float64;
  SevenDayAveragePrice : float64;
  ThirtyDayVolume : float64;
  ThirtyDayChange : float64;
  ThirtyDaySales : float64;
  ThirtyDayAveragePrice : float64;
  TotalVolume : float64;
  TotalSales : float64;
  TotalSupply : float64;
  Count : float64;
  NumOwners : Z;
  AveragePrice : float64;
  NumReports : Z;
  MarketCap : float64;
  FloorPrice : float64
}.

Record OpenSeaStats (float64 : Type) := {
  Stats : Stats_ float64
}.

(** What [c.Client.Do] answers to the statistics request, read as
    [opensea.Response] is. *)
Record StatsResponse (float64 : Type) := {
  StatsStatusCode : Z;
  StatsReadAllError : option error;
  StatsErrorOfBody : error;
  StatsDecoded : OpenSeaStats float64;
  StatsDecodeError : option error
}.
Arguments StatsStatusCode {float64} _.
Arguments StatsReadAllError {float64} _.
Arguments StatsErrorOfBody {float64} _.
Arguments StatsDecoded {float64} _.
Arguments StatsDecodeError {float64} _.

Definition CollectionStats {float64 : Type} (W : World)
    (Do : string → string → error + StatsResponse float64)
    (c : opensea.Client) (id : string) : Run (error + OpenSeaStats float64) :=
  if decide (String.length id = 0%nat) then
    mret (inl ("collection stats: id is required: " +:+ opensea.ErrParameter))
  else
    let url := opensea.urlID opensea.retrieveCollectionStatsEndpoint (opensea.Host c) id in
    match NewRequest W url with
    | Some err => mret (inl ("collection stats: request: " +:+ err))
    | None =>
        emit (EvHttpGet url (opensea.Authorizer c));;
        match Do url (opensea.Authorizer c) with
        | inl err => mret (inl ("collection stats response: " +:+ err))
        | inr resp =>
            match StatsReadAllError resp with
            | Some err => mret (inl ("collection stats response read: " +:+ err))
            | None =>
                if decide (StatsStatusCode resp ≠ 200) then
                  mret (inl (StatsErrorOfBody resp))
                else
                  match StatsDecodeError resp with
                  | Some err =>
                      mret (inl ("collection stats raw response error decode: " +:+ err))
                  | None => mret (inr (StatsDecoded resp))
                  end
            end
        end
    end.

(** *** Package [main]: [sendTweet], the version-1 notifier *)

(** What [client.Statuses.Update] answers: the tweet's id, the status code of
    the HTTP response when there is a response, and the error. *)
Record UpdateAnswer := {
  TweetID : Z;
  RespStatusCode : option Z;
  UpdateError : option error
}.

(** [sendTweet].  [replyTo] stays empty: the one assignment to it is
    commented out.  The error branch reads [resp.StatusCode], which panics
    when there is no response. *)
Definition sendTweet (Update : string → UpdateAnswer)
    (collection : opensea.OpenSeaCollection) (count : Z) (twitKey : TwitterKeys)
    : Run unit :=
  if decide (ConsumerKey twitKey = "") then
    logPrint "Twitter Consumer Key environment variable (TWITTER_CONSUMER_KEY) is not set."
  else if decide (ConsumerSecret twitKey = "") then
    logPrint "Twitter Consumer Secret environment variable (TWITTER_CONSUMER_SECRET) is not set."
  else if decide (Token twitKey = "") then
    logPrint "Twitter Token environment variable (TWITTER_TOKEN) is not set."
  else if decide (TokenSecret twitKey = "") then
    logPrint "Twitter Token Secret environment variable (TWITTER_TOKEN_SECRET) is not set."
  else
    let replyTo := "" in
    let link := "https://opensea.io/collection/" +:+ opensea.Slug (opensea.Collection collection) in
    let status :=
      "NFTs Mint Alert: " +:+ pretty count +:+ " sold in 10 minutes." +:+ nl
      +:+ " " +:+ replyTo +:+ " " +:+ nl
      +:+ "Head on over and have a look" +:+ nl +:+ " " +:+ link +:+ " " +:+ nl +:+ nl
      +:+ " #nft #nfts #nftcollection #nftcollectibles #nftminting #niftyscoops #NFTsales" in
    emit (EvCreateTweet status);;
    let answer := Update status in
    match UpdateError answer with
    | Some err =>
        match RespStatusCode answer with
        | None => stop Panicked
        | Some code =>
            logPrint ("Error sending tweet: (" +:+ pretty code +:+ ") " +:+ err)
        end
    | None => logPrint ("Tweet sent. Tweet ID: " +:+ pretty (TweetID answer))
    end.

(** *** Components read off the code *)

(** The text [sendDiscordWebhook] posts. *)
Definition discordAlert (collection : opensea.OpenSeaCollection) (count : Z) : string :=
  "Mint Alert!" +:+ nl +:+ nl +:+ "**[" +:+ opensea.Name collection
  +:+ "](" +:+ opensea.ExternalURL (opensea.Collection collection)
  +:+ ")**" +:+ nl +:+ nl +:+ "**" +:+ pretty count
  +:+ " minted** in **" +:+ pretty 10 +:+ " minutes**" +:+ nl.

(** All four Twitter credentials are set. *)
Definition twitterConfigured (twitKey : TwitterKeys) : Prop :=
  ConsumerKey twitKey ≠ "" ∧ ConsumerSecret twitKey ≠ ""
  ∧ Token twitKey ≠ "" ∧ TokenSecret twitKey ≠ "".

#[export] Instance twitterConfigured_dec twitKey : Decision (twitterConfigured twitKey).
Proof. unfold twitterConfigured. apply _. Defined.

(** The addresses of the [EvHttpGet] requests of a trace, in order. *)
Definition requested (t : list Event) : list string :=
  omap (λ e, match e with EvHttpGet url _ => Some url | _ => None end) t.

(** A ranked entry the announcement loop goes to OpenSea for. *)
Definition qualifies (recents : list string) (mint : Pair) : Prop :=
  Value mint > 100 ∧ Key mint ∉ announced recents.

#[export] Instance qualifies_dec recents mint : Decision (qualifies recents mint).
Proof. unfold qualifies. apply _. Defined.

Section MoreComponents.
Context `{!common.Keccak256}.

(** The number of entries of a contract in a sequence. *)
Definition countOf (address : string) (mints : list types.Log) : nat :=
  length (filter (λ txLog, contractOf txLog = address) mints).

End MoreComponents.

(** *** More example runs *)

(** Mints of two contracts with an ERC-20 transfer between them. *)
Definition mixedLogs : list types.Log :=
  mintsOf 0x11 3 ++ erc20Log :: mintsOf 0x22 5.

(** A node that takes the connection and fails the header request. *)
Definition worldNodeDown : World :=
  {| Environ := list_to_map requiredEnv;
     Ranking := rankByWordCount;
     NewSession := None;
     GetObject := λ _ _, inl "NoSuchKey";
     PutObject := λ _ _ _, None;
     Dial := λ _, None;
     HeaderByNumber := inl "node down";
     FilterLogs := λ _ _, inr [];
     NewRequest := λ _, None;
     HttpDo := λ _ _, inl "unreachable";
     CreateTweet := λ _, inr "{}";
     ParseInt := λ _, inr 7;
     NewWebhookAPI := λ _ _, None;
     WebhookGet := λ _ _, None;
     WebhookExecute := λ _ _ _ _, inr 1 |}.

(** Two contracts with 101 mints each, in a world that ranks as
    [rankByWordCount] does and in one whose [range] goes over the map the
    other way round. *)
Definition reverseRanking (wordFrequencies : gmap string Z) : PairList :=
  sortSort (Reverse Less) (reverse (pairsOf wordFrequencies)).

Definition withRanking (rank : gmap string Z → PairList) (W : World) : World :=
  {| Environ := Environ W;
     Ranking := rank;
     NewSession := NewSession W;
     GetObject := GetObject W;
     PutObject := PutObject W;
     Dial := Dial W;
     HeaderByNumber := HeaderByNumber W;
     FilterLogs := FilterLogs W;
     NewRequest := NewRequest W;
     HttpDo := HttpDo W;
     CreateTweet := CreateTweet W;
     ParseInt := ParseInt W;
     NewWebhookAPI := NewWebhookAPI W;
     WebhookGet := WebhookGet W;
     WebhookExecute := WebhookExecute W |}.

Definition worldTied : World :=
  exampleWorld (("OPENSEA_API_KEY", "k") :: requiredEnv) (inl "NoSuchKey")
    (mintsOf 0x11 101 ++ mintsOf 0x22 101) (inr okResponse) (inr 1).

Definition worldTiedReversed : World := withRanking reverseRanking worldTied.

(** A store that does not answer in time, and a stored object that is not
    JSON, which the decoder reports and leaves the status alone for; each
    with 101 mints of one contract. *)
Definition worldStoreDown : World :=
  exampleWorld (("OPENSEA_API_KEY", "k") :: requiredEnv) (inl "RequestTimeout")
    (mintsOf 0x11 101) (inr okResponse) (inr 1).

Definition worldStoreGarbled : World :=
  exampleWorld (("OPENSEA_API_KEY", "k") :: requiredEnv)
    (inr {| ReadError := None;
            Unmarshaled := {| Recents := [] |};
            UnmarshalError :=
              Some "invalid character '<' looking for beginning of value" |})
    (mintsOf 0x11 101) (inr okResponse) (inr 1).

(** * Proofs *)

(** ** Hexadecimal renderings *)

Section HexFacts.

Lemma nibble_cases n : 0 ≤ n < 16 → n ∈ Z.of_nat <$> seq 0 16.
Proof. intros Hn. cbn. rewrite !elem_of_cons. lia. Qed.

Lemma byte_nibbles b :
  isByte b →
  0 ≤ Z.shiftr b 4 < 16 ∧ 0 ≤ Z.land b 15 < 16
  ∧ b = 16 * Z.shiftr b 4 + Z.land b 15.
Proof.
  intros Hb. unfold isByte in Hb. rewrite Z.shiftr_div_pow2 by lia.
  change 15 with (Z.ones 4). rewrite Z.land_ones by lia.
  change (2 ^ 4) with 16.
  pose proof (Z.div_mod b 16). pose proof (Z.mod_pos_bound b 16).
  assert (0 ≤ b / 16 < 16); [|lia].
  split; [apply Z.div_pos; lia|apply Z.div_lt_upper_bound; lia].
Qed.

Lemma hexDigit_inj n m :
  0 ≤ n < 16 → 0 ≤ m < 16 → common.hexDigit n = common.hexDigit m → n = m.
Proof.
  intros Hn%nibble_cases Hm%nibble_cases. cbn in Hn, Hm.
  repeat (apply elem_of_cons in Hn as [->|Hn]);
    try (by apply elem_of_nil in Hn);
    repeat (apply elem_of_cons in Hm as [->|Hm]);
    try (by apply elem_of_nil in Hm); by vm_compute.
Qed.

Lemma hexEncode_inj a b :
  Forall isByte a → Forall isByte b →
  common.hexEncode a = common.hexEncode b → a = b.
Proof.
  intros Ha. revert b. induction Ha as [|x a Hx Ha IH]; intros b Hb Heq.
  { by destruct b. }
  destruct Hb as [|y b Hy Hb]; [done|]. simpl in Heq.
  injection Heq as Hhi Hlo Hrest.
  destruct (byte_nibbles x Hx) as (? & ? & Hxe).
  destruct (byte_nibbles y Hy) as (? & ? & Hye).
  apply hexDigit_inj in Hhi; [|done..]. apply hexDigit_inj in Hlo; [|done..].
  f_equal; [lia|by apply IH].
Qed.

Lemma setBytes_exact n b : length b = n → common.setBytes n b = b.
Proof.
  intros <-. unfold common.setBytes.
  by rewrite Nat.sub_diag, drop_0, Nat.sub_diag.
Qed.

(** The first topic renders as [topicTransfer] exactly when it is the
    Keccak-256 of the [Transfer] signature, byte for byte. *)
Lemma HashHex_topicTransfer topic0 :
  length topic0 = common.HashLength → Forall isByte topic0 →
  common.HashHex (common.BytesToHash topic0) = topicTransfer
  ↔ topic0 = transferTopic.
Proof.
  intros Hlen Hbytes. unfold common.BytesToHash. rewrite setBytes_exact by done.
  split; [|by intros ->].
  intros Heq. apply hexEncode_inj; [done| |].
  - unfold isByte. repeat constructor; lia.
  - unfold common.HashHex in Heq. by injection Heq.
Qed.

Section Checksum.
Context `{!common.Keccak256}.

Lemma checksumChar_zero hash k n :
  0 ≤ n < 16 →
  common.checksumChar hash k (common.hexDigit n) = "0"%char → n = 0.
Proof.
  intros Hn%nibble_cases. cbn in Hn. unfold common.checksumChar.
  repeat (apply elem_of_cons in Hn as [->|Hn]);
    try (by apply elem_of_nil in Hn); [done|..];
    cbn [common.hexDigit]; simpl; try discriminate;
    case_match; discriminate.
Qed.

Lemma checksum_zeros hash (a : list Z) k :
  Forall isByte a →
  imap (λ i, common.checksumChar hash (k + i))
    (list_ascii_of_string (common.hexEncode a))
  = replicate (2 * length a) "0"%char →
  a = replicate (length a) 0.
Proof.
  intros Ha. revert k. induction Ha as [|x a Hx Ha IH]; intros k Heq; [done|].
  replace (2 * length (x :: a))%nat with (S (S (2 * length a))) in Heq
    by (simpl; lia).
  cbn [common.hexEncode list_ascii_of_string imap replicate] in Heq.
  injection Heq as Hhi Hlo Hrest.
  destruct (byte_nibbles x Hx) as (? & ? & Hxe).
  apply checksumChar_zero in Hhi; [|done]. apply checksumChar_zero in Hlo; [|done].
  simpl. f_equal; [lia|].
  apply (IH (S (S k))). etrans; [|exact Hrest].
  apply imap_ext. intros i c _. simpl. f_equal. lia.
Qed.

(** An address renders as [nullAddress] exactly when its twenty bytes are
    zero. *)
Lemma AddressHex_nullAddress a :
  length a = common.AddressLength → Forall isByte a →
  common.AddressHex a = nullAddress ↔ a = replicate 20 0.
Proof.
  intros Hlen Hbytes. split; [|by intros ->].
  unfold common.AddressHex, nullAddress. simpl. intros [= Heq].
  change (String.append EmptyString ?s) with s in Heq.
  apply (f_equal list_ascii_of_string) in Heq.
  rewrite list_ascii_of_string_of_list_ascii in Heq.
  pose proof (checksum_zeros
                (common.keccak256 (common.asciiBytes (common.hexEncode a)))
                a 0 Hbytes) as Hzero.
  rewrite Hlen in Hzero. by apply Hzero.
Qed.

Lemma BytesToAddress_topic topic :
  length topic = common.HashLength →
  common.BytesToAddress topic = drop 12 topic
  ∧ length (drop 12 topic) = common.AddressLength.
Proof.
  intros Hlen. unfold common.BytesToAddress, common.setBytes.
  rewrite Hlen, length_drop, Hlen. split; [done|].
  rewrite length_drop, Hlen. done.
Qed.

(** On an entry with topics of 32 bytes, what the filter tests on the
    renderings is what [mintBytes] says of the bytes. *)
Lemma transferMint_bytes txLog :
  wellFormed txLog → transferMint txLog ↔ mintBytes txLog.
Proof.
  unfold wellFormed, transferMint, mintBytes. intros Hwf. split.
  - intros ((topic0 & H0 & Htransfer) & Hlen & Hdeny & topic1 & H1 & Hnull).
    destruct (types.Topics txLog) as [|t0 [|t1 rest]]; simplify_eq/=.
    apply Forall_cons in Hwf as [[Hl0 Hb0] Hwf].
    apply Forall_cons in Hwf as [[Hl1 Hb1] _].
    apply HashHex_topicTransfer in Htransfer as ->; [|done..].
    destruct (BytesToAddress_topic topic1 Hl1) as [Haddr Hl].
    rewrite Haddr in Hnull. apply AddressHex_nullAddress in Hnull; [|done|].
    + exists topic1, rest. split_and!; [done|lia|done..].
    + by apply Forall_drop.
  - intros (topic1 & rest & Htopics & Hlen & Hzero & Hdeny).
    rewrite Htopics in Hwf |- *.
    apply Forall_cons in Hwf as [_ Hwf]. apply Forall_cons in Hwf as [[Hl1 _] _].
    split_and!; [by exists transferTopic|simpl; lia|done|].
    exists topic1. split; [done|].
    destruct (BytesToAddress_topic topic1 Hl1) as [-> _]. by rewrite Hzero.
Qed.

End Checksum.

End HexFacts.
(** ** The Deduplicator *)

Section DeduplicatorFacts.

Lemma filter_firstOccurrences (P : string → Prop) `{!∀ s, Decision (P s)} logs :
  firstOccurrences (filter (λ l, P (identifier l)) logs)
  = filter (λ l, P (identifier l)) (firstOccurrences logs).
Proof.
  induction logs as [|x rest IH]; [done|].
  rewrite filter_cons. destruct (decide (P (identifier x))) as [HP|HP]; simpl.
  - rewrite filter_cons, decide_True by done. f_equal.
    rewrite IH, !list_filter_filter. apply list_filter_iff. intros y. split; intros [? ?]; done.
  - rewrite filter_cons, decide_False by done.
    rewrite IH, list_filter_filter. apply list_filter_iff.
    intros y. split; [|by intros [? ?]]. intros Hy. split; [done|]. intros Heq. apply HP. by rewrite <- Heq.
Qed.

Lemma uniqueTransactions_snd logs transHashList transList :
  (uniqueTransactions logs transHashList transList).2
  = transList ++ firstOccurrences
      (filter (λ l, transHashList !! identifier l = None) logs).
Proof.
  revert transHashList transList.
  induction logs as [|x rest IH]; intros m tl; simpl.
  - by rewrite app_nil_r.
  - fold (identifier x). rewrite filter_cons.
    destruct (m !! identifier x) as [v|] eqn:Hm.
    + rewrite decide_False by done. apply IH.
    + rewrite decide_True by done. rewrite IH, <- app_assoc. simpl. do 2 f_equal.
      pose proof (filter_firstOccurrences (λ s, s ≠ identifier x)) as E.
      etrans; [|apply E].
      f_equal. rewrite list_filter_filter. apply list_filter_iff. intros y.
      rewrite lookup_insert_None. split; intros [? ?]; done.
Qed.

Lemma Deduplicator_firstOccurrences logs :
  Deduplicator logs = firstOccurrences logs.
Proof.
  unfold Deduplicator. rewrite uniqueTransactions_snd. simpl. f_equal.
  induction logs as [|x rest IH]; [done|].
  rewrite filter_cons, decide_True by apply lookup_empty. by f_equal.
Qed.

Lemma firstOccurrences_sublist logs : firstOccurrences logs `sublist_of` logs.
Proof.
  induction logs as [|x rest IH]; simpl; [done|].
  apply sublist_skip. etrans; [apply sublist_filter|done].
Qed.

Lemma firstOccurrences_identifiers logs id :
  id ∈ identifier <$> firstOccurrences logs ↔ id ∈ identifier <$> logs.
Proof.
  induction logs as [|x rest IH]; simpl; [done|].
  rewrite !elem_of_cons, <- IH, !list_elem_of_fmap.
  split.
  - intros [->|(y & -> & Hy)]; [by left|].
    apply list_elem_of_filter in Hy as [_ Hy]. right. eauto.
  - intros [->|(y & -> & Hy)]; [by left|].
    destruct (decide (identifier y = identifier x)) as [->|Hne]; [by left|].
    right. exists y. split; [done|]. by apply list_elem_of_filter.
Qed.

Lemma firstOccurrences_NoDup logs : NoDup (identifier <$> firstOccurrences logs).
Proof.
  induction logs as [|x rest IH]; simpl; [constructor|].
  constructor.
  - rewrite list_elem_of_fmap. intros (y & Heq & Hy).
    apply list_elem_of_filter in Hy as [Hne _]. congruence.
  - eapply sublist_NoDup; [exact IH|]. apply fmap_sublist, sublist_filter.

Qed.

Lemma firstOccurrences_find logs vLog :
  vLog ∈ firstOccurrences logs →
  ∃ i, list_find (λ other, identifier other = identifier vLog) logs = Some (i, vLog).
Proof.
  induction logs as [|x rest IH]; simpl; [by intros ?%elem_of_nil|].
  rewrite elem_of_cons. intros [->|Hin].
  - exists 0%nat. by rewrite decide_True.
  - apply list_elem_of_filter in Hin as [Hne Hin].
    destruct (IH Hin) as [i Hi]. exists (S i).
    rewrite decide_False by congruence. by rewrite Hi.
Qed.

End DeduplicatorFacts.

(** ** Runs *)

Lemma Run_bind_ret {A B} (a : A) (f : A → Run B) : mret a ≫= f = f a.
Proof. unfold mret, Run_ret, mbind, Run_bind. by destruct (f a). Qed.

Lemma Run_bind_stop {A B} (t : list Event) (e : Exit) (f : A → Run B) :
  (t, Stop e) ≫= f = (t, Stop e).
Proof. done. Qed.

Lemma Run_bind_trace {A B} (m : Run A) (f : A → Run B) :
  trace (m ≫= f)
  = trace m ++ match outcome m with Done a => trace (f a) | Stop _ => [] end.
Proof.
  destruct m as [t [a|e]]; simpl; [|by rewrite app_nil_r].
  unfold trace. simpl. by destruct (f a).
Qed.

Lemma Run_bind_result {A B} (m : Run A) (f : A → Run B) :
  outcome (m ≫= f)
  = match outcome m with Done a => outcome (f a) | Stop e => Stop e end.
Proof.
  destruct m as [t [a|e]]; simpl; [|done].
  unfold outcome. simpl. by destruct (f a).
Qed.

(** ** The Mint Filter and the Aggregator *)

Section ScanFacts.
Context `{!common.Keccak256}.

Lemma isMint_trace txLog : trace (isMint txLog) = [].
Proof.
  unfold isMint. repeat (case_match; try done); repeat case_decide; done.
Qed.

Lemma isMint_topics txLog :
  types.Topics txLog ≠ [] → ∃ mint, isMint txLog = mret mint.
Proof.
  intros Hne. unfold isMint.
  destruct (types.Topics txLog) as [|t0 [|t1 [|t2 [|t3 ts]]]] eqn:E; [done|..];
    simpl; repeat case_decide; simpl in *; eauto; lia.
Qed.

Lemma isMint_transferMint txLog :
  outcome (isMint txLog) = Done true ↔ transferMint txLog.
Proof.
  unfold isMint, transferMint, contractOf.
  destruct (types.Topics txLog) as [|t0 ts] eqn:E; simpl.
  { split; [done|]. by intros [(? & ? & _) _]. }
  destruct (decide (common.HashHex (common.BytesToHash t0) ≠ topicTransfer))
    as [Hne|Heq%dec_stable]; simpl.
  { split; [done|]. intros [(? & [= <-] & ?) _]. done. }
  destruct (decide (S (length ts) < 4)%nat) as [Hlt|Hge]; simpl.
  { split; [done|]. intros (_ & ? & _). lia. }
  case_decide as Hdeny; simpl.
  { split; [done|]. intros (_ & _ & Hnot & _).
    rewrite !not_elem_of_cons in Hnot. tauto. }
  destruct ts as [|t1 [|t2 ts]]; simpl in *; [lia..|].
  split.
  - intros [= Hd%bool_decide_eq_true]. split_and!; eauto; [lia|].
    rewrite !not_elem_of_cons. split_and!; try tauto. apply not_elem_of_nil.
  - intros (_ & _ & _ & t & [= <-] & Hn). f_equal. by apply bool_decide_eq_true.
Qed.

Lemma countMints_Aggregator transList addressList :
  Forall (λ txLog, types.Topics txLog ≠ []) transList →
  countMints transList addressList
  = mret (Aggregator (MintFilter transList) addressList).
Proof.
  revert addressList. induction transList as [|x rest IH]; intros m Htop; [done|].
  apply Forall_cons in Htop as [Hx Hrest].
  simpl. unfold MintFilter. rewrite filter_cons.
  destruct (isMint_topics x Hx) as [b Hb].
  rewrite Hb, Run_bind_ret.
  destruct b; simpl; by rewrite IH.
Qed.

Lemma countMints_trace transList addressList :
  trace (countMints transList addressList) = [].
Proof.
  revert addressList. induction transList as [|x rest IH]; intros m; [done|].
  simpl. rewrite Run_bind_trace, isMint_trace. simpl.
  destruct (outcome (isMint x)) as [[]|]; auto.
Qed.

Lemma countMints_Done transList addressList addressList' :
  outcome (countMints transList addressList) = Done addressList' →
  addressList' = Aggregator (MintFilter transList) addressList.
Proof.
  revert addressList. induction transList as [|x rest IH]; intros m; simpl.
  { by intros [= <-]. }
  rewrite Run_bind_result. unfold MintFilter. rewrite filter_cons.
  destruct (outcome (isMint x)) as [[]|] eqn:Hx; simpl; [| |done].
  - by intros Hr%IH.
  - by intros Hr%IH.
Qed.

End ScanFacts.

(** ** Counting and ranking *)

Section RankingFacts.

Lemma sumZ_Permutation l k : l ≡ₚ k → sumZ l = sumZ k.
Proof. induction 1; simpl; lia. Qed.

Lemma totalCount_empty : totalCount ∅ = 0.
Proof. unfold totalCount. by rewrite map_to_list_empty. Qed.

Lemma totalCount_insert_None (m : gmap string Z) k v :
  m !! k = None → totalCount (<[k:=v]> m) = v + totalCount m.
Proof.
  intros Hk. unfold totalCount.
  erewrite sumZ_Permutation; [|apply fmap_Permutation, map_to_list_insert, Hk]. done.
Qed.

Lemma totalCount_delete (m : gmap string Z) k v :
  m !! k = Some v → totalCount m = v + totalCount (delete k m).
Proof.
  intros Hk. rewrite <- (insert_delete_id m k v) at 1 by done.
  apply totalCount_insert_None, lookup_delete_eq.
Qed.

Lemma totalCount_nonneg (m : gmap string Z) :
  map_Forall (λ _ v, 0 < v) m → 0 ≤ totalCount m.
Proof.
  induction m as [|k v m Hk _ IH] using map_first_key_ind.
  - by rewrite totalCount_empty.
  - rewrite map_Forall_insert by done. intros [Hv Hm].
    rewrite totalCount_insert_None by done. specialize (IH Hm). lia.
Qed.

Lemma totalCount_lookup_le (m : gmap string Z) k v :
  map_Forall (λ _ v, 0 < v) m → m !! k = Some v → v ≤ totalCount m.
Proof.
  intros Hm Hk. rewrite (totalCount_delete m k v) by done.
  assert (0 ≤ totalCount (delete k m)); [|lia].
  apply totalCount_nonneg. by apply map_Forall_delete.
Qed.

Lemma wrap64_small z : - 2 ^ 63 ≤ z < 2 ^ 63 → wrap64 z = z.
Proof. intros Hz. unfold wrap64. rewrite Z.mod_small; lia. Qed.

Lemma countMint_total (m : gmap string Z) address :
  map_Forall (λ _ v, 0 < v) m → totalCount m + 1 < 2 ^ 63 →
  totalCount (countMint m address) = totalCount m + 1
  ∧ map_Forall (λ _ v, 0 < v) (countMint m address).
Proof.
  intros Hm Hlt. unfold countMint.
  destruct (m !! address) as [v|] eqn:Hk; simpl.
  - pose proof (totalCount_lookup_le m address v Hm Hk) as Hle.
    pose proof (Hm address v Hk) as Hv. simpl in Hv.
    rewrite wrap64_small by lia. split.
    + rewrite <- insert_delete_eq, totalCount_insert_None by apply lookup_delete_eq.
      rewrite (totalCount_delete m address v) by done. lia.
    + apply map_Forall_insert_2; [lia|done].
  - rewrite wrap64_small by lia. split.
    + rewrite totalCount_insert_None by done. lia.
    + apply map_Forall_insert_2; [lia|done].
Qed.

Section WithKeccak.
Context `{!common.Keccak256}.

Lemma Aggregator_total mints (m : gmap string Z) :
  map_Forall (λ _ v, 0 < v) m →
  totalCount m + Z.of_nat (length mints) < 2 ^ 63 →
  totalCount (Aggregator mints m) = totalCount m + Z.of_nat (length mints)
  ∧ map_Forall (λ _ v, 0 < v) (Aggregator mints m).
Proof.
  revert m. induction mints as [|x rest IH]; intros m Hm Hlt; simpl.
  { split; [lia|done]. }
  simpl in Hlt.
  destruct (countMint_total m (contractOf x) Hm) as [Ht Hpos]; [lia|].
  destruct (IH (countMint m (contractOf x)) Hpos) as [Ht' Hpos']; [lia|].
  unfold Aggregator in *. split; [|done]. rewrite Ht', Ht. lia.
Qed.

End WithKeccak.

Lemma StronglySorted_weaken {A} (R S : relation A) l :
  (∀ a b, R a b → S a b) → StronglySorted R l → StronglySorted S l.
Proof.
  intros HRS. induction 1 as [|a l Hl IH Hall]; constructor; [done|].
  eapply Forall_impl; [exact Hall|]. intros b. apply HRS.
Qed.

(** Whatever the order the map is ranged over, the sort leaves the same
    counts, in non-increasing order. *)
Lemma sortSort_any_order (pl : PairList) :
  sumZ (Value <$> sortSort (Reverse Less) pl) = sumZ (Value <$> pl)
  ∧ StronglySorted (λ a b, Value b ≤ Value a) (sortSort (Reverse Less) pl).
Proof.
  unfold sortSort. split.
  - apply sumZ_Permutation, fmap_Permutation, merge_sort_Permutation.
  - set (R := λ a b : Pair, ¬ Reverse Less b a).
    assert (Transitive R) by (intros a b c; unfold R, Reverse, Less; lia).
    assert (Total R) by (intros a b; unfold R, Reverse, Less; lia).
    eapply StronglySorted_weaken; [|apply (StronglySorted_merge_sort R)].
    intros a b. unfold R, Reverse, Less. lia.
Qed.

Lemma rankByWordCount_Permutation (m : gmap string Z) :
  rankByWordCount m ≡ₚ pairsOf m.
Proof. unfold rankByWordCount, sortSort. apply merge_sort_Permutation. Qed.

Lemma pairsOf_total (m : gmap string Z) (pl : PairList) :
  pl ≡ₚ pairsOf m → sumZ (Value <$> pl) = totalCount m.
Proof.
  intros Hpl. erewrite sumZ_Permutation; [|apply fmap_Permutation, Hpl].
  unfold totalCount, pairsOf. by rewrite <- list_fmap_compose.
Qed.

Lemma rankByWordCount_total (m : gmap string Z) :
  sumZ (Value <$> rankByWordCount m) = totalCount m.
Proof. apply pairsOf_total, rankByWordCount_Permutation. Qed.

Lemma rankByWordCount_sorted (m : gmap string Z) :
  StronglySorted (λ a b, Value b ≤ Value a) (rankByWordCount m).
Proof. apply sortSort_any_order. Qed.

End RankingFacts.

(** ** The announcement loop *)

(** Closes a goal on a trace that is written out. *)
Ltac quiet_trace :=
  unfold noSave, logsOnly, trace; simpl;
  repeat (apply List.Forall_cons; [simpl; tauto|]); try apply List.Forall_nil.

Section AnnounceFacts.

Lemma found_announced key recents :
  found key recents = true ↔ key ∈ announced recents.
Proof.
  unfold announced. induction recents as [|recent rest IH]; simpl.
  { split; [done|]. by intros ?%elem_of_nil. }
  rewrite filter_cons. destruct (decide (recent = "")) as [->|Hne]; simpl.
  - apply IH.
  - rewrite (decide_True _ _ Hne), elem_of_cons.
    destruct (decide (key = recent)) as [->|Hk].
    + split; [by left|done].
    + rewrite IH. split; [by right|]. by intros [?|?].
Qed.

Lemma notifies_app t1 t2 : notifies (t1 ++ t2) ↔ notifies t1 ∨ notifies t2.
Proof. apply Exists_app. Qed.

Lemma notifies_nil : ¬ notifies [].
Proof. by intros ?%Exists_nil. Qed.

Lemma notifies_logging t : Forall (λ e, isLogging e) t → ¬ notifies t.
Proof.
  intros Hall Hex. apply Exists_exists in Hex as (e & He & Hn).
  rewrite Forall_forall in Hall. specialize (Hall e He). by destruct e.
Qed.

Lemma AssetContract_result W c id :
  ∃ r, outcome (AssetContract W c id) = Done r.
Proof.
  unfold AssetContract. cbv zeta. case_decide; [by eauto|].
  destruct (NewRequest W _); [by eauto|].
  rewrite Run_bind_result. simpl.
  repeat (case_match; simpl; eauto).
Qed.

Lemma AssetContract_quiet W c id : ¬ notifies (trace (AssetContract W c id)).
Proof.
  unfold AssetContract. cbv zeta. case_decide; [apply notifies_nil|].
  destruct (NewRequest W _); [apply notifies_nil|].
  rewrite Run_bind_trace. simpl.
  intros [Hn|Hn]%Exists_cons; [done|]. revert Hn.
  repeat (case_match; simpl; try apply notifies_nil).
Qed.

Lemma callOut_result collection address count :
  ∃ b, outcome (callOut collection address count) = Done b.
Proof. unfold callOut. repeat (case_decide; simpl; eauto). Qed.

Lemma callOut_quiet collection address count :
  ¬ notifies (trace (callOut collection address count)).
Proof.
  apply notifies_logging. unfold callOut.
  repeat (case_decide; simpl); repeat constructor.
Qed.

Lemma noSave_app t1 t2 : noSave (t1 ++ t2) ↔ noSave t1 ∧ noSave t2.
Proof. apply Forall_app. Qed.

Lemma noSave_logsOnly t : logsOnly t → noSave t.
Proof.
  intros Hl. eapply Forall_impl; [exact Hl|]. intros [] ? ?; simpl in *; done.
Qed.

Lemma sendTweetV2_result W collection count twitKey :
  outcome (sendTweetV2 W collection count twitKey) = Done ().
Proof.
  unfold sendTweetV2. repeat (case_decide; [done|]).
  rewrite !Run_bind_result. simpl. by destruct (CreateTweet W _).
Qed.

Lemma sendTweetV2_noSave W collection count twitKey :
  noSave (trace (sendTweetV2 W collection count twitKey)).
Proof.
  unfold sendTweetV2. repeat (case_decide; [quiet_trace|]).
  cbv zeta. rewrite !Run_bind_trace. simpl.
  destruct (CreateTweet W _); simpl; quiet_trace.
Qed.

Lemma sendDiscordWebhook_result W collection count webhookId webhookToken :
  outcome (sendDiscordWebhook W collection count webhookId webhookToken) = Done ()
  ∨ outcome (sendDiscordWebhook W collection count webhookId webhookToken)
    = Stop Panicked.
Proof.
  unfold sendDiscordWebhook. case_decide; [by left|].
  destruct (ParseInt W _); [by left|].
  destruct (NewWebhookAPI W _ _); [by left|].
  rewrite Run_bind_result. simpl.
  destruct (WebhookGet W _ _); [by left|].
  destruct (WebhookExecute W _ _ _ _); [by right|by left].
Qed.

Lemma sendDiscordWebhook_delivers W collection count webhookId webhookToken :
  discordDelivers W →
  outcome (sendDiscordWebhook W collection count webhookId webhookToken) = Done ().
Proof.
  intros Hd. unfold sendDiscordWebhook. case_decide; [done|].
  destruct (ParseInt W _) as [|keyInt]; [done|].
  destruct (NewWebhookAPI W _ _); [done|].
  rewrite Run_bind_result. simpl.
  destruct (WebhookGet W _ _); [done|].
  match goal with |- context [WebhookExecute W ?a ?b ?c ?d] =>
    destruct (Hd a b c d) as [msgID ->] end.
  done.
Qed.

Lemma sendDiscordWebhook_noSave W collection count webhookId webhookToken :
  noSave (trace (sendDiscordWebhook W collection count webhookId webhookToken)).
Proof.
  unfold sendDiscordWebhook. case_decide; [quiet_trace|].
  destruct (ParseInt W _); [quiet_trace|].
  destruct (NewWebhookAPI W _ _); [quiet_trace|].
  rewrite Run_bind_trace. simpl.
  destruct (WebhookGet W _ _); [quiet_trace|].
  destruct (WebhookExecute W _ _ _ _); quiet_trace.
Qed.

Lemma AssetContract_noSave W c id : noSave (trace (AssetContract W c id)).
Proof.
  unfold AssetContract. cbv zeta. case_decide; [constructor|].
  destruct (NewRequest W _); [constructor|].
  rewrite Run_bind_trace. simpl. constructor; [simpl; tauto|].
  repeat (case_match; simpl; try constructor).
Qed.

Lemma AssetContract_available W c id :
  metadataAvailable W → id ≠ "" →
  ∃ collection, outcome (AssetContract W c id) = Done (inr collection).
Proof.
  intros Hm Hid. unfold AssetContract. cbv zeta.
  rewrite decide_False by (by destruct id).
  destruct (Hm (opensea.urlID opensea.retrieveSingleContractEndpoint (opensea.Host c) id)
              (opensea.Authorizer c))
    as (-> & resp & -> & Hcode & -> & Hdec).
  rewrite Run_bind_result. simpl.
  rewrite decide_False by (by intros []). rewrite Hdec. eauto.
Qed.

Lemma callOut_noSave collection address count :
  noSave (trace (callOut collection address count)).
Proof.
  apply noSave_logsOnly. unfold callOut.
  repeat (case_decide; simpl); quiet_trace.
Qed.

(** The four ways through the body of the third loop. *)

Lemma announce_skipped W ch status mint :
  ¬ Value mint > 100 ∨ found (Key mint) (Recents status) = true →
  announce W ch status mint = mret status.
Proof.
  intros Hskip. unfold announce. case_decide; [|done].
  destruct Hskip as [?| ->]; done.
Qed.

Lemma announce_fetch_failed W ch status mint err :
  Value mint > 100 → found (Key mint) (Recents status) = false →
  outcome (AssetContract W (osclient ch) (Key mint)) = Done (inl err) →
  outcome (announce W ch status mint) = Stop Returned
  ∧ ¬ notifies (trace (announce W ch status mint))
  ∧ noSave (trace (announce W ch status mint)).
Proof.
  intros Hgt Hnf Hr. unfold announce.
  rewrite decide_True, Hnf by done.
  rewrite Run_bind_result, Run_bind_trace, Hr. simpl. split_and!; [done|..].
  - rewrite notifies_app. intros [?%AssetContract_quiet|Hn]; [done|].
    by apply Exists_cons in Hn as [?|?%Exists_nil].
  - apply noSave_app. split; [apply AssetContract_noSave|quiet_trace].
Qed.

Lemma announce_rejected W ch status mint collection :
  Value mint > 100 → found (Key mint) (Recents status) = false →
  outcome (AssetContract W (osclient ch) (Key mint)) = Done (inr collection) →
  outcome (callOut collection (Key mint) (Value mint)) = Done false →
  outcome (announce W ch status mint) = Done status
  ∧ ¬ notifies (trace (announce W ch status mint))
  ∧ noSave (trace (announce W ch status mint)).
Proof.
  intros Hgt Hnf Hr Hc. unfold announce.
  rewrite decide_True, Hnf by done.
  rewrite Run_bind_result, Run_bind_trace, Hr.
  rewrite Run_bind_result, Run_bind_trace, Hc. simpl. split_and!; [done|..].
  - rewrite app_nil_r, notifies_app.
    by intros [?%AssetContract_quiet|?%callOut_quiet].
  - rewrite app_nil_r. apply noSave_app.
    split; [apply AssetContract_noSave|apply callOut_noSave].
Qed.

Lemma announce_accepted W ch status mint collection :
  Value mint > 100 → found (Key mint) (Recents status) = false →
  outcome (AssetContract W (osclient ch) (Key mint)) = Done (inr collection) →
  outcome (callOut collection (Key mint) (Value mint)) = Done true →
  outcome (announce W ch status mint)
  = match outcome (sendDiscordWebhook W collection (Value mint)
                    (discordWebhookId ch) (discordWebhookToken ch)) with
    | Done _ => Done {| Recents := Recents status ++ [Key mint] |}
    | Stop e => Stop e
    end
  ∧ noSave (trace (announce W ch status mint)).
Proof.
  intros Hgt Hnf Hr Hc. unfold announce.
  rewrite decide_True, Hnf by done.
  rewrite Run_bind_result, Run_bind_trace, Hr.
  rewrite Run_bind_result, Run_bind_trace, Hc.
  rewrite !Run_bind_result, !Run_bind_trace, sendTweetV2_result. simpl. split.
  - by destruct (outcome (sendDiscordWebhook _ _ _ _ _)).
  - apply noSave_app. split; [apply AssetContract_noSave|].
    apply noSave_app. split; [apply callOut_noSave|].
    constructor; [simpl; tauto|].
    apply noSave_app. split; [apply sendTweetV2_noSave|].
    apply noSave_app. split; [apply sendDiscordWebhook_noSave|].
    destruct (outcome (sendDiscordWebhook _ _ _ _ _)); constructor.
Qed.

End AnnounceFacts.

(** ** The loop as a whole, and the save *)

Section GateFacts.

Lemma announce_noSave W ch status mint :
  noSave (trace (announce W ch status mint)).
Proof.
  destruct (decide (Value mint > 100)) as [Hgt|Hle];
    [|rewrite announce_skipped by auto; constructor].
  destruct (found (Key mint) (Recents status)) eqn:Hf;
    [rewrite announce_skipped by auto; constructor|].
  destruct (AssetContract_result W (osclient ch) (Key mint)) as [[err|c] Hr].
  { by eapply announce_fetch_failed. }
  destruct (callOut_result c (Key mint) (Value mint)) as [[] Hc].
  - by eapply announce_accepted.
  - by eapply announce_rejected.
Qed.

Lemma announce_completes W ch status mint :
  metadataAvailable W → discordDelivers W → Key mint ≠ "" →
  ∃ status', outcome (announce W ch status mint) = Done status'.
Proof.
  intros Hm Hd Hk.
  destruct (decide (Value mint > 100)) as [Hgt|Hle];
    [|rewrite announce_skipped by auto; by eexists].
  destruct (found (Key mint) (Recents status)) eqn:Hf;
    [rewrite announce_skipped by auto; by eexists|].
  destruct (AssetContract_available W (osclient ch) (Key mint) Hm Hk) as [c Hr].
  destruct (callOut_result c (Key mint) (Value mint)) as [[] Hc].
  - destruct (announce_accepted W ch status mint c Hgt Hf Hr Hc) as [-> _].
    rewrite sendDiscordWebhook_delivers by done. by eexists.
  - destruct (announce_rejected W ch status mint c Hgt Hf Hr Hc) as [-> _].
    by eexists.
Qed.

(** What the body hands on: the status as it was, or with the address
    appended after an accepted call-out. *)
Lemma announce_Done W ch status mint status' :
  outcome (announce W ch status mint) = Done status' →
  status' = status
  ∨ (Recents status' = Recents status ++ [Key mint]
     ∧ Value mint > 100 ∧ found (Key mint) (Recents status) = false
     ∧ ∃ collection,
         outcome (AssetContract W (osclient ch) (Key mint)) = Done (inr collection)
         ∧ outcome (callOut collection (Key mint) (Value mint)) = Done true).
Proof.
  intros Hs.
  destruct (decide (Value mint > 100)) as [Hgt|Hle];
    [|rewrite announce_skipped in Hs by auto; injection Hs as <-; by left].
  destruct (found (Key mint) (Recents status)) eqn:Hf;
    [rewrite announce_skipped in Hs by auto; injection Hs as <-; by left|].
  destruct (AssetContract_result W (osclient ch) (Key mint)) as [[err|c] Hr].
  { destruct (announce_fetch_failed W ch status mint err) as [Hstop _];
      [done..|]. congruence. }
  destruct (callOut_result c (Key mint) (Value mint)) as [[] Hc].
  - destruct (announce_accepted W ch status mint c) as [Hres _]; [done..|].
    rewrite Hres in Hs.
    destruct (outcome (sendDiscordWebhook _ _ _ _ _)); [|done].
    injection Hs as <-. right. eauto 10.
  - destruct (announce_rejected W ch status mint c) as [Hres _]; [done..|].
    left. congruence.
Qed.

(** Over the whole loop the recents only grow, at the end, by addresses of
    the ranked list. *)
Lemma announceAll_appends W ch mintlist status status' :
  outcome (announceAll W ch mintlist status) = Done status' →
  ∃ added, Recents status' = Recents status ++ added
           ∧ added `sublist_of` Key <$> mintlist.
Proof.
  revert status. induction mintlist as [|mint rest IH]; intros status; simpl.
  { intros [= <-]. exists []. by rewrite app_nil_r. }
  rewrite Run_bind_result.
  destruct (outcome (announce W ch status mint)) as [status1|] eqn:H1; [|done].
  intros (added & Hrec & Hsub)%IH.
  apply announce_Done in H1 as [->|(Happ & _)].
  - exists added. split; [done|]. by apply sublist_cons.
  - exists (Key mint :: added). rewrite Hrec, Happ, <- app_assoc.
    split; [done|]. by apply sublist_skip.
Qed.

Lemma announceAll_noSave W ch mintlist status :
  noSave (trace (announceAll W ch mintlist status)).
Proof.
  revert status. induction mintlist as [|mint rest IH]; intros status; simpl.
  { constructor. }
  rewrite Run_bind_trace. apply noSave_app. split; [apply announce_noSave|].
  destruct (outcome (announce W ch status mint)); [apply IH|constructor].
Qed.

Lemma announceAll_completes W ch mintlist status :
  metadataAvailable W → discordDelivers W →
  Forall (λ mint, Key mint ≠ "") mintlist →
  ∃ status', outcome (announceAll W ch mintlist status) = Done status'.
Proof.
  intros Hm Hd. revert status.
  induction mintlist as [|mint rest IH]; intros status Hkeys; simpl.
  { by eexists. }
  apply Forall_cons in Hkeys as [Hk Hrest].
  destruct (announce_completes W ch status mint Hm Hd Hk) as [status' Hs].
  rewrite Run_bind_result, Hs. by apply IH.
Qed.

Lemma saveStatus_trace W status s3bucket s3key :
  outcome (saveStatus W status s3bucket s3key) = Done ()
  ∧ ∃ after,
      trace (saveStatus W status s3bucket s3key)
      = EvPutObject s3bucket s3key (trimRecents status) :: after
      ∧ logsOnly after.
Proof.
  unfold saveStatus, SetStatus.
  rewrite !Run_bind_result, !Run_bind_trace. simpl.
  destruct (PutObject W _ _ _); simpl; (split; [done|]); eexists;
    (split; [done|quiet_trace]).
Qed.

Lemma GetStatus_result W s3bucket s3key :
  ∃ status, outcome (GetStatus W s3bucket s3key) = Done status.
Proof.
  unfold GetStatus. cbv zeta. rewrite Run_bind_result. simpl.
  destruct (GetObject W _ _) as [err|object]; [by eexists|].
  rewrite Run_bind_result. destruct (ReadError object); by eexists.
Qed.

Lemma GetStatus_decoded W s3bucket s3key object :
  GetObject W s3bucket s3key = inr object →
  outcome (GetStatus W s3bucket s3key) = Done (Unmarshaled object).
Proof.
  intros Hobj. unfold GetStatus. cbv zeta. rewrite Run_bind_result. simpl.
  rewrite Hobj, Run_bind_result. by destruct (ReadError object).
Qed.

Lemma GetStatus_noSave W s3bucket s3key :
  noSave (trace (GetStatus W s3bucket s3key)).
Proof.
  unfold GetStatus. cbv zeta. rewrite Run_bind_trace. simpl.
  destruct (GetObject W _ _) as [err|object]; [quiet_trace|].
  rewrite Run_bind_trace. destruct (ReadError object); quiet_trace.
Qed.

(** The trim keeps the list within the cap as long as the run has not taken
    it more than two entries over. *)
Lemma trimRecents_within_cap status :
  (length (Recents status) ≤ 202)%nat →
  (length (Recents (trimRecents status)) ≤ 200)%nat.
Proof.
  intros Hlen. unfold trimRecents. case_decide; simpl; [|lia].
  rewrite length_drop. lia.
Qed.

End GateFacts.

Section KeyFacts.
Context `{!common.Keccak256}.

Lemma contractOf_nonempty txLog : contractOf txLog ≠ "".
Proof. done. Qed.

Lemma Aggregator_keys mints (m : gmap string Z) :
  map_Forall (λ k _, k ≠ "") m →
  map_Forall (λ k _, k ≠ "") (Aggregator mints m).
Proof.
  revert m. induction mints as [|x rest IH]; intros m Hm; [done|].
  apply IH. by apply map_Forall_insert_2.
Qed.

Lemma ranks_keys (m : gmap string Z) (mintlist : PairList) :
  ranks m mintlist → map_Forall (λ k _, k ≠ "") m →
  Forall (λ mint, Key mint ≠ "") mintlist.
Proof.
  intros [Hp _] Hm. rewrite Hp. unfold pairsOf.
  apply Forall_fmap, Forall_forall. intros [k v] Hkv%elem_of_map_to_list.
  by apply (Hm k v).
Qed.

Lemma rankByWordCount_ranks (m : gmap string Z) : ranks m (rankByWordCount m).
Proof. split; [apply rankByWordCount_Permutation|apply rankByWordCount_sorted]. Qed.

Lemma sortSort_ranks (m : gmap string Z) (pl : PairList) :
  pl ≡ₚ pairsOf m → ranks m (sortSort (Reverse Less) pl).
Proof.
  intros Hpl. split; [|apply sortSort_any_order].
  unfold sortSort. by rewrite merge_sort_Permutation.
Qed.

Lemma rankByWordCount_keys (m : gmap string Z) :
  map_Forall (λ k _, k ≠ "") m →
  Forall (λ mint, Key mint ≠ "") (rankByWordCount m).
Proof. apply ranks_keys, rankByWordCount_ranks. Qed.

Lemma saveStatus_exact W status s3bucket s3key :
  saveStatus W status s3bucket s3key
  = (EvPutObject s3bucket s3key (trimRecents status)
     :: match PutObject W s3bucket s3key (trimRecents status) with
        | Some err => [EvLog err; EvLog "End"]
        | None => [EvLog "End"]
        end, Done ()).
Proof.
  unfold saveStatus, SetStatus.
  by destruct (PutObject W s3bucket s3key (trimRecents status)).
Qed.

End KeyFacts.

(** ** [processLogs] from end to end *)

Section RunFacts.
Context `{!common.Keccak256}.

Lemma Run_eta {A} (m : Run A) : m = (trace m, outcome m).
Proof. by destruct m. Qed.

Lemma processLogs_configured W :
  Getenv W "ETH_NETWORK_URL" ≠ "" → Getenv W "S3_BUCKET" ≠ "" →
  Getenv W "S3_FILE_KEY" ≠ "" →
  processLogs W
  = scanAndAnnounce W (Getenv W "ETH_NETWORK_URL") (Getenv W "S3_BUCKET")
      (Getenv W "S3_FILE_KEY") (Getenv W "OPENSEA_API_KEY").
Proof.
  intros Hurl Hbucket Hkey. unfold processLogs. cbv zeta.
  by rewrite !decide_False by done.
Qed.

(** Without one of the first three required values the run logs one line and
    returns before any call to the outside. *)
Lemma processLogs_missing_required W :
  Getenv W "ETH_NETWORK_URL" = "" ∨ Getenv W "S3_BUCKET" = ""
  ∨ Getenv W "S3_FILE_KEY" = "" →
  outcome (processLogs W) = Stop Returned
  ∧ ∃ msg, trace (processLogs W) = [EvLog msg].
Proof.
  intros Hmissing. unfold processLogs. cbv zeta.
  repeat (case_decide; [by eauto|]). tauto.
Qed.

Lemma uniqueTransactions_Deduplicator logs :
  uniqueTransactions logs ∅ []
  = ((uniqueTransactions logs ∅ []).1, Deduplicator logs).
Proof. unfold Deduplicator. by destruct (uniqueTransactions logs ∅ []). Qed.

Lemma Deduplicator_topics logs :
  Forall (λ vLog, types.Topics vLog ≠ []) logs →
  Forall (λ vLog, types.Topics vLog ≠ []) (Deduplicator logs).
Proof.
  rewrite Deduplicator_firstOccurrences, !Forall_forall. intros Hall x Hx.
  by apply Hall, (sublist_subseteq _ _ (firstOccurrences_sublist logs)).
Qed.

Lemma scanAndAnnounce_completes W logs status0 s3bucket s3key networkUrl openseaKey toBlock :
  NewSession W = None → Dial W networkUrl = None →
  HeaderByNumber W = inr toBlock →
  FilterLogs W (toBlock - newBlocks) toBlock = inr logs →
  Forall (λ vLog, types.Topics vLog ≠ []) logs →
  metadataAvailable W → discordDelivers W → ranksWell W →
  outcome (GetStatus W s3bucket s3key) = Done status0 →
  ∃ status' before,
    outcome (announceAll W (channels W openseaKey)
              (Ranking W (Aggregator (MintFilter (Deduplicator logs)) ∅))
              status0) = Done status'
    ∧ scanAndAnnounce W networkUrl s3bucket s3key openseaKey
      = (before ++ trace (saveStatus W status' s3bucket s3key), Done ())
    ∧ noSave before.
Proof.
  intros Hsess Hdial Hhead Hlogs Htopics Hmeta Hdisc Hrank Hget.
  pose proof (GetStatus_noSave W s3bucket s3key) as Hquiet.
  remember (Ranking W (Aggregator (MintFilter (Deduplicator logs)) ∅))
    as mintlist eqn:Hmint.
  destruct (announceAll_completes W (channels W openseaKey) mintlist status0)
    as [status' Hall]; [done..| |].
  { subst mintlist. eapply ranks_keys; [apply Hrank|].
    apply Aggregator_keys, map_Forall_empty. }
  pose proof (announceAll_noSave W (channels W openseaKey) mintlist status0) as Hq.
  pose proof (saveStatus_exact W status' s3bucket s3key) as Hsave.
  exists status'.
  unfold scanAndAnnounce. rewrite Hsess, Hdial, Hhead. cbv zeta. rewrite Hlogs.
  rewrite uniqueTransactions_Deduplicator.
  rewrite countMints_Aggregator by by apply Deduplicator_topics.
  destruct (GetStatus W s3bucket s3key) as [t0 r0]. simpl in Hget, Hquiet. subst r0.
  cbn [mbind Run_bind]. rewrite Run_bind_ret, <- Hmint.
  destruct (announceAll W (channels W openseaKey) mintlist status0) as [t1 r1].
  simpl in Hall, Hq. subst r1. cbn [mbind Run_bind].
  rewrite Hsave.
  simpl. exists (t0 ++ EvDial networkUrl :: EvHeaderByNumber
    :: EvLog ("Start block: " +:+ pretty (toBlock - newBlocks)
              +:+ "   End block: " +:+ pretty toBlock)
    :: EvLog "Querying..."
    :: EvFilterLogs (toBlock - newBlocks) toBlock topicTransfer
    :: EvLog ("Log entries to process: " +:+ pretty (length logs))
    :: EvLog ("Unique transactions to process: "
              +:+ pretty (size (uniqueTransactions logs ∅ []).1))
    :: t1).
  split_and!; [done| |].
  - by rewrite <- !app_assoc.
  - apply noSave_app. split; [done|]. by repeat (constructor; [simpl; tauto|]).
Qed.

End RunFacts.

(** ** The properties of the specification *)

(** C7. For every input sequence of log entries, the Deduplicator's output
    holds every transaction identifier of the input exactly once: it is the
    input with, for each identifier, the first entry kept and the later ones
    dropped, so the entries come in the order in which their identifiers
    are first seen. *)
Theorem Deduplicator_first_occurrence (logs : list types.Log) :
  Deduplicator logs = firstOccurrences logs
  ∧ NoDup (identifier <$> Deduplicator logs)
  ∧ (∀ id, id ∈ identifier <$> Deduplicator logs ↔ id ∈ identifier <$> logs)
  ∧ Deduplicator logs `sublist_of` logs
  ∧ ∀ vLog, vLog ∈ Deduplicator logs →
      ∃ i, list_find (λ other, identifier other = identifier vLog) logs
           = Some (i, vLog).
Proof.
  rewrite Deduplicator_firstOccurrences. split_and!.
  - done.
  - apply firstOccurrences_NoDup.
  - apply firstOccurrences_identifiers.
  - apply firstOccurrences_sublist.
  - apply firstOccurrences_find.
Qed.

(** C6. At the end of a run the status is saved once, by [saveStatus]: when
    the list has more than 200 entries the saved list is the list without
    its first two entries, whatever its length, and otherwise the status is
    saved as it is. *)
Theorem saveStatus_trims_two (W : World) (status : Status) (s3bucket s3key : string) :
  ∃ saved after,
    trace (saveStatus W status s3bucket s3key)
    = EvPutObject s3bucket s3key saved :: after
    ∧ logsOnly after
    ∧ ((200 < length (Recents status))%nat →
       (∃ oldest second, Recents status = oldest :: second :: Recents saved)
       ∧ length (Recents saved) = (length (Recents status) - 2)%nat)
    ∧ ((length (Recents status) ≤ 200)%nat → saved = status).
Proof.
  destruct (saveStatus_trace W status s3bucket s3key) as (_ & after & Ht & Hlog).
  exists (trimRecents status), after. split_and!; [done..| |].
  - intros Hlen. unfold trimRecents. rewrite decide_True by done. simpl.
    destruct (Recents status) as [|oldest [|second rest]]; simpl in *; [lia..|].
    split; [by eauto|]. rewrite drop_0. lia.
  - intros Hlen. unfold trimRecents. by rewrite decide_False by lia.
Qed.

(** C5. For every ranked entry and every status, the body of the
    announcement loop calls a notification provider only if the count is
    above 100 and the address is none of the non-empty entries of the
    recents; if the call-out decision rejects the contract, no provider is
    called and the status is left as it was; and the status the body hands
    on is either unchanged or has the address appended after an accepted
    call-out. *)
Theorem announce_gate (W : World) (ch : Channels) (status : Status) (mint : Pair) :
  (notifies (trace (announce W ch status mint)) →
   Value mint > 100 ∧ Key mint ∉ announced (Recents status))
  ∧ (∀ collection,
       outcome (AssetContract W (osclient ch) (Key mint)) = Done (inr collection) →
       outcome (callOut collection (Key mint) (Value mint)) = Done false →
       ¬ notifies (trace (announce W ch status mint))
       ∧ outcome (announce W ch status mint) = Done status)
  ∧ (∀ status',
       outcome (announce W ch status mint) = Done status' →
       status' = status
       ∨ (Recents status' = Recents status ++ [Key mint]
          ∧ Value mint > 100 ∧ (Key mint ∉ announced (Recents status))
          ∧ ∃ collection,
              outcome (AssetContract W (osclient ch) (Key mint))
              = Done (inr collection)
              ∧ outcome (callOut collection (Key mint) (Value mint)) = Done true)).
Proof.
  destruct (decide (Value mint > 100)) as [Hgt|Hle].
  2: { rewrite announce_skipped by auto. split_and!.
       - by intros ?%notifies_nil.
       - intros. split; [apply notifies_nil|done].
       - intros status' [= <-]. by left. }
  destruct (found (Key mint) (Recents status)) eqn:Hf.
  { rewrite announce_skipped by auto. split_and!.
    - by intros ?%notifies_nil.
    - intros. split; [apply notifies_nil|done].
    - intros status' [= <-]. by left. }
  assert (Key mint ∉ announced (Recents status)) as Hnew.
  { rewrite <- found_announced, Hf. done. }
  split_and!; [done| |].
  - intros collection Hr Hc.
    destruct (announce_rejected W ch status mint collection) as (? & ? & _); done.
  - intros status' [->|(? & ? & _ & ?)]%announce_Done; [by left|].
    right. by split_and!.
Qed.

Section ScanClaims.
Context `{!common.Keccak256}.

(** C8. For every deduplicated sequence whose entries each carry at least
    one topic, the scan ends without an error or an event, having
    counted exactly the Mint Filter's output; that output is a subsequence of
    the input and holds exactly the entries whose first topic is the transfer
    identifier, which have at least four topics, whose contract is neither
    the OpenSea contract nor one of the two ENS contracts, and whose origin,
    decoded from the second topic, is the null address; on entries with
    topics of 32 bytes that is: the first topic is the transfer hash and
    the low twenty bytes of the second are zero. *)
Theorem MintFilter_sound (transList : list types.Log) :
  Forall (λ txLog, types.Topics txLog ≠ []) transList →
  countMints transList ∅ = mret (Aggregator (MintFilter transList) ∅)
  ∧ MintFilter transList `sublist_of` transList
  ∧ (∀ txLog, txLog ∈ MintFilter transList
              ↔ txLog ∈ transList ∧ transferMint txLog)
  ∧ ∀ txLog, wellFormed txLog →
             txLog ∈ MintFilter transList ↔ txLog ∈ transList ∧ mintBytes txLog.
Proof.
  intros Htopics.
  assert (∀ txLog, txLog ∈ MintFilter transList
                   ↔ txLog ∈ transList ∧ transferMint txLog) as Hfilter.
  { intros txLog. unfold MintFilter.
    rewrite list_elem_of_filter, isMint_transferMint. tauto. }
  split_and!.
  - by apply countMints_Aggregator.
  - apply sublist_filter.
  - done.
  - intros txLog Hwf. by rewrite Hfilter, transferMint_bytes.
Qed.

(** C9. For every scanned sequence, the counts of the ranked output add up
    to the number of entries of the Mint Filter's output, and the ranked
    output is in non-increasing order of count; so it is for every order in
    which the map can be ranged over before the sort. *)
Theorem rankByWordCount_counts_mints (transList : list types.Log)
    (addressList : gmap string Z) :
  Z.of_nat (length (MintFilter transList)) < 2 ^ 63 →
  outcome (countMints transList ∅) = Done addressList →
  (sumZ (Value <$> rankByWordCount addressList)
   = Z.of_nat (length (MintFilter transList))
   ∧ StronglySorted (λ a b, Value b ≤ Value a) (rankByWordCount addressList))
  ∧ ∀ pl, pl ≡ₚ pairsOf addressList →
      sumZ (Value <$> sortSort (Reverse Less) pl)
      = Z.of_nat (length (MintFilter transList))
      ∧ StronglySorted (λ a b, Value b ≤ Value a) (sortSort (Reverse Less) pl).
Proof.
  intros Hlen ->%countMints_Done.
  assert (totalCount (Aggregator (MintFilter transList) ∅)
          = Z.of_nat (length (MintFilter transList))) as Htotal.
  { destruct (Aggregator_total (MintFilter transList) ∅) as [-> _].
    - apply map_Forall_empty.
    - rewrite totalCount_empty. lia.
    - rewrite totalCount_empty. lia. }
  split.
  - split; [|apply rankByWordCount_sorted]. by rewrite rankByWordCount_total.
  - intros pl Hpl. destruct (sortSort_any_order pl) as [-> Hsorted].
    split; [|done]. by rewrite (pairsOf_total _ _ Hpl).
Qed.



End ScanClaims.

(** ** Further properties of the code *)

(** *** The first loop: [transHashList] and [transList] *)

Section DeduplicatorMore.

Lemma uniqueTransactions_lookup logs (transHashList : gmap string string) transList id :
  (uniqueTransactions logs transHashList transList).1 !! id
  = match transHashList !! id with
    | Some v => Some v
    | None => if decide (id ∈ identifier <$> logs) then Some id else None
    end.
Proof.
  revert transHashList transList.
  induction logs as [|x rest IH]; intros m tl; simpl.
  { by destruct (m !! id). }
  fold (identifier x). destruct (m !! identifier x) as [v|] eqn:Hx; rewrite IH.
  - destruct (m !! id) eqn:Hid; [done|].
    assert (id ≠ identifier x) by congruence.
    repeat case_decide; try done; set_unfold; tauto.
  - destruct (decide (id = identifier x)) as [->|Hne].
    + rewrite lookup_insert_eq, Hx, decide_True; [done|]. set_unfold; tauto.
    + rewrite lookup_insert_ne by done. destruct (m !! id); [done|].
      repeat case_decide; try done; set_unfold; tauto.
Qed.

Lemma uniqueTransactions_sizes logs (transHashList : gmap string string) transList :
  (size (uniqueTransactions logs transHashList transList).1 + length transList
   = size transHashList + length (uniqueTransactions logs transHashList transList).2)%nat.
Proof.
  revert transHashList transList.
  induction logs as [|x rest IH]; intros m tl; simpl; [done|].
  destruct (m !! common.HashHex (types.TxHash x)) eqn:Hx; [apply IH|].
  specialize (IH (<[common.HashHex (types.TxHash x) := common.HashHex (types.TxHash x)]> m)
                (tl ++ [x])).
  rewrite map_size_insert_None, length_app in IH by done. simpl in IH. lia.
Qed.

Lemma filter_Forall_id {A} (P : A → Prop) `{!∀ x, Decision (P x)} (l : list A) :
  Forall P l → filter P l = l.
Proof.
  induction 1 as [|x l Hx Hl IH]; [done|]. by rewrite filter_cons_True, IH.
Qed.

Lemma firstOccurrences_NoDup_id logs :
  NoDup (identifier <$> logs) → firstOccurrences logs = logs.
Proof.
  induction logs as [|x rest IH]; simpl; [done|].
  intros [Hx Hrest]%NoDup_cons. rewrite IH by done. f_equal.
  apply filter_Forall_id, Forall_forall. intros y Hy Heq. apply Hx.
  rewrite <- Heq. by apply list_elem_of_fmap_2.
Qed.

Lemma firstOccurrences_app first second :
  firstOccurrences (first ++ second)
  = firstOccurrences first
    ++ filter (λ vLog, identifier vLog ∉ identifier <$> first) (firstOccurrences second).
Proof.
  induction first as [|x rest IH]; simpl.
  { symmetry. apply filter_Forall_id, Forall_forall. intros ? _. apply not_elem_of_nil. }
  f_equal. rewrite IH, filter_app. f_equal.
  rewrite list_filter_filter. apply list_filter_iff. intros y.
  rewrite not_elem_of_cons. tauto.
Qed.

End DeduplicatorMore.

(** X1. The map of the first loop and its list go together: the map holds
    exactly the transaction identifiers of the input, each under itself, and
    its size, which the run logs as the number of unique transactions, is the
    number of entries that go on to the second loop. *)
Theorem uniqueTransactions_size (logs : list types.Log) :
  size (uniqueTransactions logs ∅ []).1 = length (Deduplicator logs)
  ∧ ∀ id, (uniqueTransactions logs ∅ []).1 !! id
          = (if decide (id ∈ identifier <$> logs) then Some id else None).
Proof.
  split.
  - pose proof (uniqueTransactions_sizes logs ∅ []) as Hs.
    rewrite map_size_empty in Hs. simpl in Hs. unfold Deduplicator. lia.
  - intros id. by rewrite uniqueTransactions_lookup, lookup_empty.
Qed.

(** X2. Deduplicating two batches one after the other: the second batch
    contributes its own first occurrences, less the transactions the first
    batch already had.  Deduplicating twice changes nothing, and an input
    without a repeated transaction comes out as it went in. *)
Theorem Deduplicator_app (first second : list types.Log) :
  Deduplicator (first ++ second)
  = Deduplicator first
    ++ filter (λ vLog, identifier vLog ∉ identifier <$> first) (Deduplicator second)
  ∧ Deduplicator (Deduplicator first) = Deduplicator first
  ∧ (NoDup (identifier <$> first) → Deduplicator first = first).
Proof.
  rewrite !Deduplicator_firstOccurrences. split_and!.
  - apply firstOccurrences_app.
  - apply firstOccurrences_NoDup_id, firstOccurrences_NoDup.
  - apply firstOccurrences_NoDup_id.
Qed.

(** X3. The identifier is the hexadecimal rendering of the transaction hash
    and loses nothing of it: on entries whose hashes are byte strings, the
    output has every transaction hash of the input exactly once. *)
Theorem Deduplicator_by_TxHash (logs : list types.Log) :
  Forall (λ vLog, Forall isByte (types.TxHash vLog)) logs →
  NoDup (types.TxHash <$> Deduplicator logs)
  ∧ ∀ hash, hash ∈ types.TxHash <$> Deduplicator logs ↔ hash ∈ types.TxHash <$> logs.
Proof.
  intros Hbytes. rewrite Deduplicator_firstOccurrences. split.
  - apply (NoDup_fmap_1 common.HashHex). rewrite <- list_fmap_compose.
    apply firstOccurrences_NoDup.
  - intros hash. rewrite !list_elem_of_fmap. split.
    + intros (y & -> & Hy). exists y. split; [done|].
      by apply (sublist_subseteq _ _ (firstOccurrences_sublist logs)).
    + intros (x & -> & Hx).
      assert (identifier x ∈ identifier <$> firstOccurrences logs) as Hid.
      { apply firstOccurrences_identifiers. by apply list_elem_of_fmap_2. }
      apply list_elem_of_fmap in Hid as (y & Heq & Hy). exists y. split; [|done].
      assert (y ∈ logs) as Hy'
        by by apply (sublist_subseteq _ _ (firstOccurrences_sublist logs)).
      rewrite Forall_forall in Hbytes.
      unfold identifier, common.HashHex in Heq. simpl in Heq.
      injection Heq as Heq.
      change (String.append EmptyString ?s) with s in Heq.
      apply hexEncode_inj; auto.
Qed.

(** *** The second loop: counts per contract *)

Section AggregatorMore.
Context `{!common.Keccak256}.

Lemma wrap64_add_l x y : wrap64 (wrap64 x + y) = wrap64 (x + y).
Proof.
  unfold wrap64. f_equal.
  replace ((x + 2 ^ 63) mod 2 ^ 64 - 2 ^ 63 + y + 2 ^ 63)
    with ((x + 2 ^ 63) mod 2 ^ 64 + y) by lia.
  rewrite Zplus_mod_idemp_l. f_equal. lia.
Qed.

Lemma countOf_cons address txLog mints :
  countOf address (txLog :: mints)
  = if decide (contractOf txLog = address) then S (countOf address mints)
    else countOf address mints.
Proof. unfold countOf. rewrite filter_cons. by case_decide. Qed.

Lemma Aggregator_lookup mints (addressList : gmap string Z) address :
  Aggregator mints addressList !! address
  = if decide (countOf address mints = 0%nat) then addressList !! address
    else Some (wrap64 (default 0 (addressList !! address)
                       + Z.of_nat (countOf address mints))).
Proof.
  revert addressList. induction mints as [|x rest IH]; intros m; [done|].
  simpl. rewrite IH, countOf_cons. unfold countMint.
  destruct (decide (contractOf x = address)) as [<-|Hne].
  - rewrite lookup_insert_eq, (decide_False (P := S _ = 0%nat)) by done. simpl.
    case_decide as Hz.
    + by rewrite Hz.
    + rewrite wrap64_add_l. do 2 f_equal. lia.
  - by rewrite lookup_insert_ne by done.
Qed.

Lemma countOf_le address mints : (countOf address mints ≤ length mints)%nat.
Proof. apply length_filter. Qed.

Lemma countOf_elem address mints :
  countOf address mints ≠ 0%nat ↔ ∃ txLog, txLog ∈ mints ∧ contractOf txLog = address.
Proof.
  unfold countOf. split.
  - intros Hne. destruct (filter _ mints) as [|x l] eqn:E; [done|].
    assert (x ∈ filter (λ txLog, contractOf txLog = address) mints) as Hin
      by (rewrite E; left).
    apply list_elem_of_filter in Hin as [? ?]. by exists x.
  - intros (x & Hx & Heq) Hz. apply length_zero_iff_nil in Hz.
    assert (x ∈ filter (λ txLog, contractOf txLog = address) mints) as Hin
      by by apply list_elem_of_filter.
    rewrite Hz in Hin. by apply elem_of_nil in Hin.
Qed.

(** X4. After the second loop the map holds, for each contract, the number
    of filtered entries of that contract, as a 64-bit [int], and nothing for
    a contract without such an entry; below 2^63 entries that is the number
    itself. *)
Theorem Aggregator_counts_per_contract (mints : list types.Log) (address : string) :
  Aggregator mints ∅ !! address
  = (if decide (countOf address mints = 0%nat) then None
     else Some (wrap64 (Z.of_nat (countOf address mints))))
  ∧ (Z.of_nat (length mints) < 2 ^ 63 →
     Aggregator mints ∅ !! address
     = if decide (countOf address mints = 0%nat) then None
       else Some (Z.of_nat (countOf address mints))).
Proof.
  assert (Aggregator mints ∅ !! address
          = (if decide (countOf address mints = 0%nat) then None
             else Some (wrap64 (Z.of_nat (countOf address mints))))) as Hl.
  { rewrite Aggregator_lookup, lookup_empty. by case_decide. }
  split; [done|]. intros Hlen. rewrite Hl. case_decide; [done|].
  pose proof (countOf_le address mints). rewrite wrap64_small; [done|lia].
Qed.

(** X5. The second loop ends in one of two ways: with the counts of the
    filtered entries when every entry has a topic, and with the panic of
    [txLog.Topics[0]] when an entry has none.  It logs nothing either way. *)
Theorem countMints_outcome (transList : list types.Log) (addressList : gmap string Z) :
  countMints transList addressList
  = ([], if decide (Forall (λ txLog, types.Topics txLog ≠ []) transList)
         then Done (Aggregator (MintFilter transList) addressList)
         else Stop Panicked).
Proof.
  case_decide as Hall; [by apply countMints_Aggregator|].
  rewrite (Run_eta (countMints transList addressList)), countMints_trace. f_equal.
  revert addressList. induction transList as [|x rest IH]; intros m.
  { destruct Hall. constructor. }
  simpl. rewrite Run_bind_result.
  destruct (types.Topics x) as [|t ts] eqn:Htop.
  { unfold isMint. by rewrite Htop. }
  destruct (isMint_topics x) as [mint Hmint]; [by rewrite Htop|].
  rewrite Hmint. simpl.
  assert (¬ Forall (λ txLog, types.Topics txLog ≠ []) rest) as Hrest.
  { intros Hrest. apply Hall. constructor; [by rewrite Htop|done]. }
  destruct mint; by apply IH.
Qed.

End AggregatorMore.

(** *** Ranking *)

Lemma ranks_one_pair_per_key (wordFrequencies : gmap string Z) (mintlist : PairList) :
  mintlist ≡ₚ pairsOf wordFrequencies →
  NoDup (Key <$> mintlist)
  ∧ length mintlist = size wordFrequencies
  ∧ ∀ key value,
      {| Key := key; Value := value |} ∈ mintlist
      ↔ wordFrequencies !! key = Some value.
Proof.
  intros Hp. split_and!.
  - rewrite Hp. unfold pairsOf. rewrite <- list_fmap_compose.
    apply NoDup_fst_map_to_list.
  - rewrite Hp. unfold pairsOf. by rewrite length_fmap, length_map_to_list.
  - intros key value. rewrite Hp. unfold pairsOf. rewrite list_elem_of_fmap. split.
    + intros ([k v] & [= -> ->] & Hkv). by apply elem_of_map_to_list.
    + intros Hkv. exists (key, value). split; [done|]. by apply elem_of_map_to_list.
Qed.

(** X6. The ranking neither loses nor invents anything: it has one pair per
    key of the map, with the key's count; and so has every ranking of the
    map, whatever the order of [range] and of the sort among equal counts. *)
Theorem rankByWordCount_one_pair_per_key (wordFrequencies : gmap string Z) :
  NoDup (Key <$> rankByWordCount wordFrequencies)
  ∧ length (rankByWordCount wordFrequencies) = size wordFrequencies
  ∧ (∀ key value,
       {| Key := key; Value := value |} ∈ rankByWordCount wordFrequencies
       ↔ wordFrequencies !! key = Some value)
  ∧ ∀ mintlist, ranks wordFrequencies mintlist →
      NoDup (Key <$> mintlist)
      ∧ length mintlist = size wordFrequencies
      ∧ ∀ key value,
          {| Key := key; Value := value |} ∈ mintlist
          ↔ wordFrequencies !! key = Some value.
Proof.
  destruct (ranks_one_pair_per_key wordFrequencies (rankByWordCount wordFrequencies))
    as (Hnodup & Hlen & Hin); [apply rankByWordCount_Permutation|].
  split_and!; [done..|].
  intros mintlist [Hp _]. by apply ranks_one_pair_per_key.
Qed.

Section RankedMore.
Context `{!common.Keccak256}.

(** X7. What the scan hands to the announcement loop, whichever ranking of
    the counts it is: every ranked pair is a contract with a mint among the
    scanned entries, so none of the three excluded contracts, with the
    number of its mints as count; and so the test of [callOut] for the
    second ENS contract never holds for it. *)
Theorem ranked_keys_are_minting_contracts (transList : list types.Log)
    (addressList : gmap string Z) (mintlist : PairList) (mint : Pair) :
  outcome (countMints transList ∅) = Done addressList →
  ranks addressList mintlist →
  mint ∈ mintlist →
  (∃ txLog, txLog ∈ transList ∧ transferMint txLog ∧ contractOf txLog = Key mint)
  ∧ (Key mint ∉ [contractAddressOpenSea; contractENS; contractENS2])
  ∧ Value mint = wrap64 (Z.of_nat (countOf (Key mint) (MintFilter transList)))
  ∧ ∀ collection, ∃ rest,
      trace (callOut collection (Key mint) (Value mint))
      = EvLog ("Checking for callout " +:+ Key mint +:+ " (count "
               +:+ pretty (Value mint) +:+ ")") :: rest.
Proof.
  intros ->%countMints_Done [Hp _] Hin.
  rewrite Hp in Hin. unfold pairsOf in Hin.
  apply list_elem_of_fmap in Hin as ([k v] & -> & Hkv%elem_of_map_to_list). simpl.
  rewrite Aggregator_lookup, lookup_empty in Hkv.
  case_decide as Hz; [done|]. injection Hkv as <-.
  apply countOf_elem in Hz as (txLog & Hin & <-).
  apply list_elem_of_filter in Hin as [Hmint%isMint_transferMint Hin].
  assert (contractOf txLog ∉ [contractAddressOpenSea; contractENS; contractENS2])
    as Hdeny by apply Hmint.
  split_and!; [by exists txLog|done|done|].
  intros collection. unfold callOut. rewrite decide_False.
  - rewrite Run_bind_trace. simpl. eauto.
  - intros Heq. apply Hdeny. rewrite Heq. set_solver.
Qed.

End RankedMore.

(** *** The announcement loop as a whole *)

Section AnnounceMore.

Lemma Run_bind_assoc {A B C} (m : Run A) (f : A → Run B) (g : B → Run C) :
  (m ≫= f) ≫= g = m ≫= (λ a, f a ≫= g).
Proof.
  destruct m as [t [a|e]]; [|done]. unfold mbind, Run_bind.
  destruct (f a) as [t1 [b|e1]]; [|done].
  destruct (g b) as [t2 r2]. by rewrite app_assoc.
Qed.

Lemma announceAll_bind W ch first second status :
  announceAll W ch (first ++ second) status
  = announceAll W ch first status ≫= announceAll W ch second.
Proof.
  revert status. induction first as [|mint rest IH]; intros status.
  { symmetry. apply Run_bind_ret. }
  cbn [app announceAll]. rewrite Run_bind_assoc.
  destruct (announce W ch status mint) as [t [status'|e]]; [|done].
  cbn [mbind Run_bind]. by rewrite IH.
Qed.

Lemma requested_app t1 t2 : requested (t1 ++ t2) = requested t1 ++ requested t2.
Proof. apply omap_app. Qed.

(** A trace of log lines and calls to the notification providers. *)
Lemma requested_none t :
  Forall (λ e, isLogging e ∨ isNotification e) t → requested t = [].
Proof.
  induction 1 as [|e t He _ IH]; [done|].
  destruct e; simpl in *; try done; tauto.
Qed.

Lemma requested_logsOnly t : logsOnly t → requested t = [].
Proof.
  intros Hl. apply requested_none. eapply Forall_impl; [exact Hl|]. simpl. tauto.
Qed.

Lemma AssetContract_requested W c id :
  requested (trace (AssetContract W c id))
  `sublist_of` [opensea.urlID opensea.retrieveSingleContractEndpoint (opensea.Host c) id].
Proof.
  unfold AssetContract. cbv zeta. case_decide; [apply sublist_nil_l|].
  destruct (NewRequest W _); [apply sublist_nil_l|].
  rewrite Run_bind_trace, requested_app. simpl.
  replace (requested _) with (@nil string); [done|].
  repeat (case_match; simpl; try done).
Qed.

Lemma callOut_requested collection address count :
  requested (trace (callOut collection address count)) = [].
Proof.
  apply requested_logsOnly. unfold callOut.
  repeat (case_decide; simpl); repeat constructor.
Qed.

Lemma sendTweetV2_requested W collection count twitKey :
  requested (trace (sendTweetV2 W collection count twitKey)) = [].
Proof.
  unfold sendTweetV2. repeat (case_decide; [done|]).
  cbv zeta. rewrite !Run_bind_trace. simpl.
  by destruct (CreateTweet W _).
Qed.

Lemma sendDiscordWebhook_requested W collection count webhookId webhookToken :
  requested (trace (sendDiscordWebhook W collection count webhookId webhookToken)) = [].
Proof.
  unfold sendDiscordWebhook. case_decide; [done|].
  destruct (ParseInt W _); [done|].
  destruct (NewWebhookAPI W _ _); [done|].
  rewrite Run_bind_trace. simpl.
  destruct (WebhookGet W _ _); [done|].
  by destruct (WebhookExecute W _ _ _ _).
Qed.

Lemma announce_requested W ch status mint :
  requested (trace (announce W ch status mint))
  `sublist_of` (if decide (qualifies (Recents status) mint)
                then [opensea.urlID opensea.retrieveSingleContractEndpoint
                        (opensea.Host (osclient ch)) (Key mint)]
                else []).
Proof.
  destruct (decide (Value mint > 100)) as [Hgt|Hle].
  2: { rewrite announce_skipped by auto. apply sublist_nil_l. }
  destruct (found (Key mint) (Recents status)) eqn:Hf.
  { rewrite announce_skipped by auto. apply sublist_nil_l. }
  rewrite decide_True.
  2: { split; [done|]. rewrite <- found_announced, Hf. done. }
  unfold announce. rewrite decide_True by done. rewrite Hf.
  rewrite Run_bind_trace, requested_app.
  replace (requested (match outcome _ with Done _ => _ | Stop _ => _ end))
    with (@nil string).
  { rewrite app_nil_r. apply AssetContract_requested. }
  destruct (outcome (AssetContract W (osclient ch) (Key mint))) as [[err|collection]|e];
    [done| |done].
  rewrite Run_bind_trace, requested_app, callOut_requested. simpl.
  destruct (outcome (callOut collection (Key mint) (Value mint))) as [[]|]; [|done..].
  pose proof (sendTweetV2_requested W collection (Value mint) (twitKey ch)) as Ht.
  pose proof (sendTweetV2_result W collection (Value mint) (twitKey ch)) as Hr.
  pose proof (sendDiscordWebhook_requested W collection (Value mint)
                (discordWebhookId ch) (discordWebhookToken ch)) as Hd.
  destruct (sendTweetV2 W collection (Value mint) (twitKey ch)) as [tt rt].
  simpl in Ht, Hr. subst rt.
  destruct (sendDiscordWebhook W collection (Value mint) (discordWebhookId ch)
              (discordWebhookToken ch)) as [td [[]|e]];
    simpl in *; rewrite ?requested_app, Ht, Hd; done.
Qed.

Lemma filter_sublist_impl {A} (P Q : A → Prop) `{!∀ x, Decision (P x)}
    `{!∀ x, Decision (Q x)} (l : list A) :
  (∀ x, P x → Q x) → filter P l `sublist_of` filter Q l.
Proof.
  intros HPQ. induction l as [|x l IH]; [done|].
  rewrite !filter_cons. destruct (decide (P x)) as [HP|HP].
  - rewrite decide_True by auto. by apply sublist_skip.
  - case_decide; [by apply sublist_cons|done].
Qed.

Lemma qualifies_earlier recents added mint :
  qualifies (recents ++ added) mint → qualifies recents mint.
Proof.
  unfold qualifies, announced. rewrite filter_app, not_elem_of_app. tauto.
Qed.

Lemma announce_grows W ch status mint status' :
  outcome (announce W ch status mint) = Done status' →
  ∃ added, Recents status' = Recents status ++ added.
Proof.
  intros [->|[-> _]]%announce_Done; [exists []; by rewrite app_nil_r|by eexists].
Qed.

Lemma announceAll_requested W ch mintlist status :
  requested (trace (announceAll W ch mintlist status))
  `sublist_of` (λ mint, opensea.urlID opensea.retrieveSingleContractEndpoint
                          (opensea.Host (osclient ch)) (Key mint))
               <$> filter (qualifies (Recents status)) mintlist.
Proof.
  revert status. induction mintlist as [|mint rest IH]; intros status;
    [apply sublist_nil_l|].
  cbn [announceAll].
  rewrite Run_bind_trace, requested_app, (filter_cons (qualifies (Recents status))).
  pose proof (announce_requested W ch status mint) as Hhead.
  assert (requested (match outcome (announce W ch status mint) with
                     | Done a => trace (announceAll W ch rest a)
                     | Stop _ => []
                     end)
          `sublist_of` (λ mint, opensea.urlID opensea.retrieveSingleContractEndpoint
                          (opensea.Host (osclient ch)) (Key mint))
                       <$> filter (qualifies (Recents status)) rest) as Htail.
  { destruct (outcome (announce W ch status mint)) as [status'|e] eqn:Hout;
      [|apply sublist_nil_l].
    etrans; [apply IH|]. apply fmap_sublist, filter_sublist_impl.
    apply announce_grows in Hout as [added ->]. intros x. apply qualifies_earlier. }
  case_decide.
  - rewrite fmap_cons. by apply (sublist_app _ [_]).
  - apply sublist_nil_r in Hhead. by rewrite Hhead.
Qed.

Lemma announceAll_none_qualifies W ch mintlist status :
  Forall (λ mint, ¬ qualifies (Recents status) mint) mintlist →
  announceAll W ch mintlist status = mret status.
Proof.
  induction 1 as [|mint rest Hmint _ IH]; simpl; [done|].
  rewrite announce_skipped, Run_bind_ret; [done|].
  destruct (found (Key mint) (Recents status)) eqn:Hf; [by right|]. left.
  intros Hgt. apply Hmint. split; [done|]. by rewrite <- found_announced, Hf.
Qed.

Lemma announceAll_appends_qualifying W ch mintlist status status' :
  outcome (announceAll W ch mintlist status) = Done status' →
  ∃ added, Recents status' = Recents status ++ added
           ∧ added `sublist_of` Key <$> filter (qualifies (Recents status)) mintlist.
Proof.
  revert status. induction mintlist as [|mint rest IH]; intros status.
  { intros [= <-]. exists []. by rewrite app_nil_r. }
  cbn [announceAll]. rewrite Run_bind_result.
  destruct (outcome (announce W ch status mint)) as [status1|] eqn:H1; [|done].
  intros (added & Hrec & Hsub)%IH.
  assert (added `sublist_of` Key <$> filter (qualifies (Recents status)) rest) as Hsub'.
  { etrans; [exact Hsub|]. apply fmap_sublist, filter_sublist_impl.
    destruct (announce_grows _ _ _ _ _ H1) as [more ->]. intros x.
    apply qualifies_earlier. }
  rewrite (filter_cons (qualifies (Recents status))).
  apply announce_Done in H1 as [->|(Happ & Hgt & Hnf & _)].
  - exists added. split; [done|]. case_decide; [by apply sublist_cons|done].
  - exists (Key mint :: added). rewrite Hrec, Happ, <- app_assoc.
    split; [done|]. rewrite decide_True.
    + rewrite fmap_cons. by apply sublist_skip.
    + split; [done|]. by rewrite <- found_announced, Hnf.
Qed.

End AnnounceMore.

(** X8. The gate over the whole loop: the metadata requests of the loop go,
    in ranking order and at most one each, to contracts with a count above
    100 that are not among the non-empty entries of the recents the run
    started from; and a ranking without such a contract gets no outside call
    and leaves the status as it was. *)
Theorem announceAll_requests_qualifying (W : World) (ch : Channels)
    (mintlist : PairList) (status : Status) :
  requested (trace (announceAll W ch mintlist status))
  `sublist_of` (λ mint, opensea.urlID opensea.retrieveSingleContractEndpoint
                          (opensea.Host (osclient ch)) (Key mint))
               <$> filter (qualifies (Recents status)) mintlist
  ∧ (Forall (λ mint, ¬ qualifies (Recents status) mint) mintlist →
     announceAll W ch mintlist status = mret status).
Proof.
  split; [apply announceAll_requested|apply announceAll_none_qualifies].
Qed.

(** X9. The loop over a ranking in two parts is the loop over the first
    part followed by the loop over the second, from the status the first
    leaves; and a metadata fetch that fails ends the loop there with a
    [return]: the entries after it are not looked at. *)
Theorem announceAll_app (W : World) (ch : Channels) (first second : PairList)
    (status : Status) :
  announceAll W ch (first ++ second) status
  = announceAll W ch first status ≫= announceAll W ch second
  ∧ ∀ status1 mint rest err,
      second = mint :: rest →
      outcome (announceAll W ch first status) = Done status1 →
      qualifies (Recents status1) mint →
      outcome (AssetContract W (osclient ch) (Key mint)) = Done (inl err) →
      outcome (announceAll W ch (first ++ second) status) = Stop Returned
      ∧ trace (announceAll W ch (first ++ second) status)
        = trace (announceAll W ch first status) ++ trace (announce W ch status1 mint).
Proof.
  split; [apply announceAll_bind|].
  intros status1 mint rest err -> Hfirst [Hgt Hnew] Hfetch.
  rewrite <- found_announced in Hnew.
  destruct (announce_fetch_failed W ch status1 mint err) as (Hout & _); [done| |done|].
  { by destruct (found (Key mint) (Recents status1)). }
  rewrite announceAll_bind, Run_bind_result, Run_bind_trace, Hfirst. simpl.
  by rewrite Run_bind_result, Run_bind_trace, Hout, app_nil_r.
Qed.

(** *** [processLogs] in every world *)

Section ProcessLogsMore.
Context `{!common.Keccak256}.

Lemma savedStatuses_app t1 t2 :
  savedStatuses (t1 ++ t2) = savedStatuses t1 ++ savedStatuses t2.
Proof. apply omap_app. Qed.

Lemma savedStatuses_noSave t : noSave t → savedStatuses t = [].
Proof.
  induction 1 as [|e t He _ IH]; [done|]. destruct e; simpl in *; done.
Qed.

Lemma scanAndAnnounce_cases W networkUrl s3bucket s3key openseaKey :
  (∃ toBlock logs status0 addressList status' before after,
     HeaderByNumber W = inr toBlock
     ∧ FilterLogs W (toBlock - newBlocks) toBlock = inr logs
     ∧ outcome (GetStatus W s3bucket s3key) = Done status0
     ∧ outcome (countMints (Deduplicator logs) ∅) = Done addressList
     ∧ outcome (announceAll W (channels W openseaKey)
                 (Ranking W addressList) status0) = Done status'
     ∧ scanAndAnnounce W networkUrl s3bucket s3key openseaKey
       = (before ++ EvPutObject s3bucket s3key (trimRecents status') :: after, Done ())
     ∧ noSave before ∧ logsOnly after)
  ∨ (outcome (scanAndAnnounce W networkUrl s3bucket s3key openseaKey) ≠ Done ()
     ∧ noSave (trace (scanAndAnnounce W networkUrl s3bucket s3key openseaKey))).
Proof.
  destruct (GetStatus_result W s3bucket s3key) as [status0 Hget].
  pose proof (GetStatus_noSave W s3bucket s3key) as Hq0.
  unfold scanAndAnnounce.
  destruct (NewSession W) as [err|]. { right. split; [done|quiet_trace]. }
  destruct (Dial W networkUrl) as [err|].
  { right. destruct (GetStatus W s3bucket s3key) as [t0 r0]. simpl in Hget, Hq0.
    subst r0. simpl. split; [done|]. apply noSave_app. split; [done|quiet_trace]. }
  destruct (HeaderByNumber W) as [err|toBlock] eqn:Hhead.
  { right. destruct (GetStatus W s3bucket s3key) as [t0 r0]. simpl in Hget, Hq0.
    subst r0. simpl. split; [done|]. apply noSave_app. split; [done|quiet_trace]. }
  cbv zeta. destruct (FilterLogs W (toBlock - newBlocks) toBlock) as [err|logs] eqn:Hlogs.
  { right. destruct (GetStatus W s3bucket s3key) as [t0 r0]. simpl in Hget, Hq0.
    subst r0. simpl. split; [done|]. apply noSave_app. split; [done|quiet_trace]. }
  rewrite uniqueTransactions_Deduplicator.
  pose proof (countMints_trace (Deduplicator logs) ∅) as Hct.
  destruct (GetStatus W s3bucket s3key) as [t0 r0]. simpl in Hget, Hq0. subst r0.
  destruct (countMints (Deduplicator logs) ∅) as [tc [addressList|e]] eqn:Hc;
    simpl in Hct; subst tc.
  2: { right. simpl. split; [done|]. apply noSave_app. split; [done|quiet_trace]. }
  pose proof (announceAll_noSave W (channels W openseaKey)
                (Ranking W addressList) status0) as Hqa.
  destruct (announceAll W (channels W openseaKey) (Ranking W addressList) status0)
    as [ta [status'|e]] eqn:Ha; simpl in Hqa.
  2: { right. cbn [mbind Run_bind]. rewrite Ha. simpl. split; [done|].
       apply noSave_app. split; [done|].
       repeat (apply List.Forall_cons; [simpl; tauto|]). exact Hqa. }
  left. exists toBlock, logs, status0, addressList, status'.
  destruct (saveStatus_trace W status' s3bucket s3key) as (Hsave & after & Hafter & Hlog).
  cbn [mbind Run_bind]. rewrite Ha. cbn [mbind Run_bind].
  destruct (saveStatus W status' s3bucket s3key) as [t2 r2].
  simpl in Hsave, Hafter. subst r2 t2. simpl.
  exists (t0 ++ EvDial networkUrl :: EvHeaderByNumber
    :: EvLog ("Start block: " +:+ pretty (toBlock - newBlocks)
              +:+ "   End block: " +:+ pretty toBlock)
    :: EvLog "Querying..."
    :: EvFilterLogs (toBlock - newBlocks) toBlock topicTransfer
    :: EvLog ("Log entries to process: " +:+ pretty (length logs))
    :: EvLog ("Unique transactions to process: "
              +:+ pretty (size (uniqueTransactions logs ∅ []).1))
    :: ta), after.
  split_and!; [done|done|done|by rewrite Hc|done| | |done].
  - by rewrite <- !app_assoc.
  - apply noSave_app. split; [done|]. by repeat (constructor; [simpl; tauto|]).
Qed.

Lemma processLogs_cases W :
  processLogs W
  = scanAndAnnounce W (Getenv W "ETH_NETWORK_URL") (Getenv W "S3_BUCKET")
      (Getenv W "S3_FILE_KEY") (Getenv W "OPENSEA_API_KEY")
  ∨ (outcome (processLogs W) = Stop Returned ∧ ∃ msg, trace (processLogs W) = [EvLog msg]).
Proof.
  destruct (decide (Getenv W "ETH_NETWORK_URL" = "")) as [?|?];
    [right; apply processLogs_missing_required; auto|].
  destruct (decide (Getenv W "S3_BUCKET" = "")) as [?|?];
    [right; apply processLogs_missing_required; auto|].
  destruct (decide (Getenv W "S3_FILE_KEY" = "")) as [?|?];
    [right; apply processLogs_missing_required; auto|].
  left. by apply processLogs_configured.
Qed.

(** X10. In every world, the status is saved exactly when the run reaches
    its end: a run that ends with the last statement of [processLogs] has
    saved once, to the configured bucket and key, as its last call to the
    outside; a run that ends in any other way, by a [return], [log.Fatal] or
    a panic, has saved nothing. *)
Theorem processLogs_saves_iff_done (W : World) :
  (outcome (processLogs W) = Done () →
   ∃ status before after,
     trace (processLogs W)
     = before ++ EvPutObject (Getenv W "S3_BUCKET") (Getenv W "S3_FILE_KEY") status
              :: after
     ∧ noSave before ∧ logsOnly after)
  ∧ (outcome (processLogs W) ≠ Done () → noSave (trace (processLogs W))).
Proof.
  destruct (processLogs_cases W) as [->|[Hout [msg Ht]]].
  2: { rewrite Hout, Ht. split; [done|]. intros _. quiet_trace. }
  destruct (scanAndAnnounce_cases W (Getenv W "ETH_NETWORK_URL") (Getenv W "S3_BUCKET")
              (Getenv W "S3_FILE_KEY") (Getenv W "OPENSEA_API_KEY"))
    as [(toBlock & logs & status0 & addressList & status' & before & after
         & _ & _ & _ & _ & _ & -> & Hb & Ha)|[Hout Hq]].
  - split; [|done]. intros _. by exists (trimRecents status'), before, after.
  - split; [done|]. by intros _.
Qed.

(** X11. What a completed run saves, whatever ranking the run time made of
    the counts: the list it loaded followed by the addresses it recorded in
    this run, which are, in the order of that ranking, contracts the
    ranking gives a count above 100 and that were not among the non-empty
    entries of the loaded list, less the first two entries when that makes
    more than 200; and when the loaded list had two entries or more, or the
    whole stays within 200, every address recorded in this run is in the
    saved list. *)
Theorem processLogs_saves_loaded_and_new (W : World) :
  outcome (processLogs W) = Done () →
  ∃ toBlock logs loaded addressList added saved,
    HeaderByNumber W = inr toBlock
    ∧ FilterLogs W (toBlock - newBlocks) toBlock = inr logs
    ∧ outcome (GetStatus W (Getenv W "S3_BUCKET") (Getenv W "S3_FILE_KEY")) = Done loaded
    ∧ outcome (countMints (Deduplicator logs) ∅) = Done addressList
    ∧ added `sublist_of` Key <$> filter (qualifies (Recents loaded))
                                    (Ranking W addressList)
    ∧ savedStatuses (trace (processLogs W)) = [saved]
    ∧ saved = trimRecents {| Recents := Recents loaded ++ added |}
    ∧ ((2 ≤ length (Recents loaded))%nat
       ∨ (length (Recents loaded ++ added) ≤ 200)%nat →
       added `suffix_of` Recents saved).
Proof.
  intros Hdone. destruct (processLogs_cases W) as [Heq|[Hout _]]; [|congruence].
  rewrite Heq in *.
  destruct (scanAndAnnounce_cases W (Getenv W "ETH_NETWORK_URL") (Getenv W "S3_BUCKET")
              (Getenv W "S3_FILE_KEY") (Getenv W "OPENSEA_API_KEY"))
    as [(toBlock & logs & status0 & addressList & status' & before & after
         & Hhead & Hlogs & Hget & Hscan & Hall & Hrun & Hb & Ha)|[Hout _]]; [|done].
  apply announceAll_appends_qualifying in Hall as (added & Hrec & Hsub).
  exists toBlock, logs, status0, addressList, added, (trimRecents status').
  assert (status' = {| Recents := Recents status0 ++ added |}) as ->
    by (destruct status'; simpl in Hrec; by subst).
  split_and!; [done..| |done|].
  - rewrite Hrun. unfold trace. simpl. rewrite savedStatuses_app. simpl.
    by rewrite (savedStatuses_noSave before), (savedStatuses_noSave after)
      by auto using noSave_logsOnly.
  - intros Hlen. unfold trimRecents. simpl. case_decide as Hover.
    + destruct Hlen as [Hlen|Hlen]; [|lia]. simpl.
      exists (drop 2 (Recents status0)). rewrite drop_app_le by done. done.
    + simpl. by exists (Recents status0).
Qed.

Lemma scanAndAnnounce_early W networkUrl s3bucket s3key openseaKey :
  (∀ err, NewSession W = Some err →
     scanAndAnnounce W networkUrl s3bucket s3key openseaKey
     = ([EvLog ("Unable to create a new session " +:+ err)], Stop Returned))
  ∧ (NewSession W = None → ∀ err, Dial W networkUrl = Some err →
     scanAndAnnounce W networkUrl s3bucket s3key openseaKey
     = (trace (GetStatus W s3bucket s3key) ++ [EvDial networkUrl; EvLog err],
        Stop Returned))
  ∧ (NewSession W = None → Dial W networkUrl = None →
     ∀ err, HeaderByNumber W = inl err →
     scanAndAnnounce W networkUrl s3bucket s3key openseaKey
     = (trace (GetStatus W s3bucket s3key)
        ++ [EvDial networkUrl; EvHeaderByNumber; EvLog err], Stop Fatal))
  ∧ (NewSession W = None → Dial W networkUrl = None →
     ∀ toBlock err, HeaderByNumber W = inr toBlock →
     FilterLogs W (toBlock - newBlocks) toBlock = inl err →
     scanAndAnnounce W networkUrl s3bucket s3key openseaKey
     = (trace (GetStatus W s3bucket s3key)
        ++ [EvDial networkUrl; EvHeaderByNumber;
            EvLog ("Start block: " +:+ pretty (toBlock - newBlocks)
                   +:+ "   End block: " +:+ pretty toBlock);
            EvLog "Querying...";
            EvFilterLogs (toBlock - newBlocks) toBlock topicTransfer;
            EvLog err], Stop Fatal)).
Proof.
  destruct (GetStatus_result W s3bucket s3key) as [status0 Hget].
  unfold scanAndAnnounce. split_and!.
  - by intros err ->.
  - intros -> err ->. destruct (GetStatus W s3bucket s3key) as [t0 r0].
    simpl in Hget. by subst r0.
  - intros -> -> err ->. destruct (GetStatus W s3bucket s3key) as [t0 r0].
    simpl in Hget. by subst r0.
  - intros -> -> toBlock err -> Hlogs. cbv zeta. rewrite Hlogs.
    destruct (GetStatus W s3bucket s3key) as [t0 r0].
    simpl in Hget. by subst r0.
Qed.

(** X12. The three required variables are looked at in order, before
    anything else: a run in which one of them is not set, or is empty, logs
    the one line that names the first such variable and returns, with no
    call to the outside. *)
Theorem processLogs_required_variables (W : World) :
  (Getenv W "ETH_NETWORK_URL" = "" →
   processLogs W
   = ([EvLog "Ethereum network URL environment variable (ETH_NETWORK_URL) is not set."],
      Stop Returned))
  ∧ (Getenv W "ETH_NETWORK_URL" ≠ "" → Getenv W "S3_BUCKET" = "" →
     processLogs W
     = ([EvLog "S3 Bucket environment variable (S3_BUCKET) is not set."],
        Stop Returned))
  ∧ (Getenv W "ETH_NETWORK_URL" ≠ "" → Getenv W "S3_BUCKET" ≠ "" →
     Getenv W "S3_FILE_KEY" = "" →
     processLogs W
     = ([EvLog "S3 Key environment variable (S3_FILE_KEY) is not set."],
        Stop Returned))
  ∧ ∀ key, Getenv W key = "" ↔ Environ W !! key = None ∨ Environ W !! key = Some "".
Proof.
  unfold processLogs. cbv zeta. split_and!.
  - intros Hurl. by rewrite decide_True.
  - intros Hurl Hbucket. rewrite decide_False by done. by rewrite decide_True.
  - intros Hurl Hbucket Hkey. rewrite decide_False by done.
    rewrite (decide_False _ _ Hbucket). by rewrite decide_True.
  - intros key. unfold Getenv. destruct (Environ W !! key) as [v|]; simpl.
    + split; [intros ->; by right|]. by intros [?|[= ->]].
    + split; [by left|done].
Qed.

(** X13. Past the configuration checks, a failure before the scan ends the
    run with the failure logged and nothing else done: a session that cannot
    be created before the status is even loaded, a node that cannot be
    dialled after the load, both with a [return]; a failing header request
    or log query with [log.Fatal]. *)
Theorem processLogs_early_failures (W : World) :
  Getenv W "ETH_NETWORK_URL" ≠ "" → Getenv W "S3_BUCKET" ≠ "" →
  Getenv W "S3_FILE_KEY" ≠ "" →
  (∀ err, NewSession W = Some err →
     processLogs W
     = ([EvLog ("Unable to create a new session " +:+ err)], Stop Returned))
  ∧ (NewSession W = None →
     ∀ err, Dial W (Getenv W "ETH_NETWORK_URL") = Some err →
     processLogs W
     = (trace (GetStatus W (Getenv W "S3_BUCKET") (Getenv W "S3_FILE_KEY"))
        ++ [EvDial (Getenv W "ETH_NETWORK_URL"); EvLog err], Stop Returned))
  ∧ (NewSession W = None → Dial W (Getenv W "ETH_NETWORK_URL") = None →
     ∀ err, HeaderByNumber W = inl err →
     processLogs W
     = (trace (GetStatus W (Getenv W "S3_BUCKET") (Getenv W "S3_FILE_KEY"))
        ++ [EvDial (Getenv W "ETH_NETWORK_URL"); EvHeaderByNumber; EvLog err],
        Stop Fatal))
  ∧ (NewSession W = None → Dial W (Getenv W "ETH_NETWORK_URL") = None →
     ∀ toBlock err, HeaderByNumber W = inr toBlock →
     FilterLogs W (toBlock - newBlocks) toBlock = inl err →
     processLogs W
     = (trace (GetStatus W (Getenv W "S3_BUCKET") (Getenv W "S3_FILE_KEY"))
        ++ [EvDial (Getenv W "ETH_NETWORK_URL"); EvHeaderByNumber;
            EvLog ("Start block: " +:+ pretty (toBlock - newBlocks)
                   +:+ "   End block: " +:+ pretty toBlock);
            EvLog "Querying...";
            EvFilterLogs (toBlock - newBlocks) toBlock topicTransfer;
            EvLog err], Stop Fatal)).
Proof.
  intros Hurl Hbucket Hkey. rewrite processLogs_configured by done.
  apply scanAndAnnounce_early.
Qed.

End ProcessLogsMore.

(** *** The two notifiers *)

Section NotifierMore.

Lemma sendTweetV2_unconfigured W collection count twitKey :
  ¬ twitterConfigured twitKey →
  ∃ msg, sendTweetV2 W collection count twitKey = ([EvLog msg], Done ()).
Proof.
  intros Hnot. unfold sendTweetV2. repeat (case_decide; [by eexists|]).
  destruct Hnot. by split_and!.
Qed.

Lemma sendTweetV2_configured W collection count twitKey :
  twitterConfigured twitKey →
  ∃ text rest,
    trace (sendTweetV2 W collection count twitKey)
    = EvPrint "Callout to create tweet callout" :: EvCreateTweet text :: rest
    ∧ logsOnly rest.
Proof.
  intros (? & ? & ? & ?). unfold sendTweetV2. rewrite !decide_False by done.
  cbv zeta. eexists _, _. rewrite !Run_bind_trace. simpl. split; [done|].
  destruct (CreateTweet W _); quiet_trace.
Qed.

Lemma sendDiscordWebhook_unconfigured W collection count webhookId webhookToken :
  webhookId = "" ∨ webhookToken = "" →
  sendDiscordWebhook W collection count webhookId webhookToken
  = ([EvLog "Discord webhook Id and/or webhook token not configured."], Done ()).
Proof. intros Hun. unfold sendDiscordWebhook. by rewrite decide_True. Qed.

End NotifierMore.

(** X14. [sendTweetV2] goes to Twitter exactly when all four credentials are
    set, and then once; with a credential missing it logs one line and
    calls nothing.  Whatever Twitter answers, it returns normally: a tweet
    that fails is logged and the run goes on. *)
Theorem sendTweetV2_tweets_iff (W : World) (collection : opensea.OpenSeaCollection)
    (count : Z) (twitKey : TwitterKeys) :
  outcome (sendTweetV2 W collection count twitKey) = Done ()
  ∧ (notifies (trace (sendTweetV2 W collection count twitKey))
     ↔ twitterConfigured twitKey)
  ∧ (¬ twitterConfigured twitKey →
     ∃ msg, trace (sendTweetV2 W collection count twitKey) = [EvLog msg])
  ∧ (length (filter (λ e, isNotification e)
               (trace (sendTweetV2 W collection count twitKey))) ≤ 1)%nat.
Proof.
  split; [apply sendTweetV2_result|].
  destruct (decide (twitterConfigured twitKey)) as [Hc|Hn].
  - destruct (sendTweetV2_configured W collection count twitKey Hc)
      as (text & rest & -> & Hrest).
    split_and!; [|done|].
    + split; [done|]. intros _. apply Exists_cons_tl, Exists_cons_hd. done.
    + rewrite filter_cons_False, filter_cons_True by (simpl; tauto).
      replace (filter _ rest) with (@nil Event); [done|].
      symmetry. clear -Hrest. induction Hrest as [|e t He _ IH]; [done|].
      rewrite filter_cons_False; [done|]. destruct e; simpl in *; tauto.
  - destruct (sendTweetV2_unconfigured W collection count twitKey Hn) as [msg ->].
    split_and!; [|by eexists|simpl; lia].
    split; [|done]. intros Hex. apply Exists_cons in Hex as [?|Hex]; [done|].
    by apply Exists_nil in Hex.
Qed.

(** X15. [sendDiscordWebhook] panics in one case only: the webhook is
    configured, its id parses, the client is created, the webhook is found
    and its execution fails.  Every failure before that is logged and the
    function returns. *)
Theorem sendDiscordWebhook_panics_iff (W : World)
    (collection : opensea.OpenSeaCollection) (count : Z)
    (webhookId webhookToken : string) :
  (outcome (sendDiscordWebhook W collection count webhookId webhookToken) = Stop Panicked
   ↔ webhookId ≠ "" ∧ webhookToken ≠ ""
     ∧ ∃ keyInt err,
         ParseInt W webhookId = inr keyInt
         ∧ NewWebhookAPI W keyInt webhookToken = None
         ∧ WebhookGet W keyInt webhookToken = None
         ∧ WebhookExecute W keyInt webhookToken (discordAlert collection count)
             (opensea.ImageURL collection) = inl err)
  ∧ (outcome (sendDiscordWebhook W collection count webhookId webhookToken)
     ≠ Stop Panicked →
     outcome (sendDiscordWebhook W collection count webhookId webhookToken) = Done ()).
Proof.
  split.
  2: { by destruct (sendDiscordWebhook_result W collection count webhookId webhookToken)
         as [->| ->]. }
  unfold sendDiscordWebhook, discordAlert. case_decide as Hcfg.
  { split; [done|]. intros (? & ? & _). tauto. }
  assert (webhookId ≠ "" ∧ webhookToken ≠ "") as [Hid Htok].
  { split; intros ->; apply Hcfg; auto. }
  destruct (ParseInt W webhookId) as [err|keyInt].
  { split; [done|]. by intros (_ & _ & ? & ? & ? & _). }
  destruct (NewWebhookAPI W keyInt webhookToken) as [err|] eqn:Hapi.
  { split; [done|]. intros (_ & _ & k & ? & [= <-] & Hnone & _). congruence. }
  rewrite Run_bind_result. simpl.
  destruct (WebhookGet W keyInt webhookToken) as [err|] eqn:Hget.
  { split; [done|]. intros (_ & _ & k & ? & [= <-] & _ & Hnone & _). congruence. }
  destruct (WebhookExecute W keyInt webhookToken _ _) as [err|msgID] eqn:Hex.
  - split; [|done]. intros _. split_and!; [done..|]. by exists keyInt, err.
  - split; [done|]. intros (_ & _ & k & ? & [= <-] & _ & _ & Hfail).
    rewrite Hex in Hfail. done.
Qed.

(** X16. Recording does not wait for a notification: for a contract that
    passes the gate and the call-out decision, with a Twitter credential
    missing and the Discord webhook not configured, the loop body calls no
    provider and still appends the address to the recents, so the contract
    is not looked at again. *)
Theorem announce_records_without_notifying (W : World) (ch : Channels)
    (status : Status) (mint : Pair) (collection : opensea.OpenSeaCollection) :
  qualifies (Recents status) mint →
  outcome (AssetContract W (osclient ch) (Key mint)) = Done (inr collection) →
  outcome (callOut collection (Key mint) (Value mint)) = Done true →
  ¬ twitterConfigured (twitKey ch) →
  discordWebhookId ch = "" ∨ discordWebhookToken ch = "" →
  outcome (announce W ch status mint)
  = Done {| Recents := Recents status ++ [Key mint] |}
  ∧ ¬ notifies (trace (announce W ch status mint)).
Proof.
  intros [Hgt Hnew] Hfetch Hcall Htw Hdc.
  assert (found (Key mint) (Recents status) = false) as Hnf.
  { rewrite <- found_announced in Hnew. by destruct (found _ _). }
  destruct (sendTweetV2_unconfigured W collection (Value mint) (twitKey ch) Htw)
    as [msg Htweet].
  pose proof (sendDiscordWebhook_unconfigured W collection (Value mint) _ _ Hdc)
    as Hdiscord.
  split.
  - destruct (announce_accepted W ch status mint collection) as [-> _]; [done..|].
    by rewrite Hdiscord.
  - unfold announce. rewrite decide_True, Hnf by done.
    rewrite Run_bind_trace, Hfetch, Run_bind_trace, Hcall.
    rewrite !notifies_app. intros [Hn|[Hn|Hn]].
    + by apply AssetContract_quiet in Hn.
    + by apply callOut_quiet in Hn.
    + revert Hn. rewrite Htweet, Hdiscord. simpl. apply notifies_logging.
      repeat constructor.
Qed.

(** *** The [opensea] client *)

Section ClientMore.

Lemma append_nil_r (s : string) : s +:+ "" = s.
Proof.
  induction s as [|c s IH]; [done|].
  change (String c s +:+ "") with (String c (s +:+ "")). by rewrite IH.
Qed.

(** A part of the address without an opening brace holds no tag and is
    copied as it is. *)
Lemma replaceFrom_no_brace (s r new : string) :
  ("{"%char ∉ list_ascii_of_string s) →
  replaceFrom 0 (s +:+ r) opensea.idTag new
  = s +:+ replaceFrom 0 r opensea.idTag new.
Proof.
  induction s as [|c s IH]; [done|]. intros Hnot.
  change (list_ascii_of_string (String c s)) with (c :: list_ascii_of_string s) in Hnot.
  apply not_elem_of_cons in Hnot as [Hc Hs].
  change (String c s +:+ ?t) with (String c (s +:+ t)).
  cbn [replaceFrom]. unfold opensea.idTag at 1. cbn [String.prefix].
  destruct (ascii_dec "{" c) as [<-|_]; [done|]. by rewrite IH.
Qed.

Lemma urlID_asset_contract host id :
  ("{"%char ∉ list_ascii_of_string host) →
  opensea.urlID opensea.retrieveSingleContractEndpoint host id
  = assetContractAddress host id.
Proof.
  intros Hhost. unfold opensea.urlID, ReplaceAll, assetContractAddress. cbv zeta.
  rewrite replaceFrom_no_brace by done. f_equal.
  unfold opensea.retrieveSingleContractEndpoint, opensea.idTag.
  change ("/" +:+ "api/v1/asset_contract/{id}") with "/api/v1/asset_contract/{id}".
  cbn [replaceFrom String.prefix String.length Nat.sub]. simpl.
  by rewrite append_nil_r.
Qed.

End ClientMore.

Section ClientCalls.

Lemma length_zero_empty (s : string) : String.length s = 0%nat ↔ s = "".
Proof. by destruct s. Qed.

Lemma urlID_collection_stats host id :
  ("{"%char ∉ list_ascii_of_string host) →
  opensea.urlID opensea.retrieveCollectionStatsEndpoint host id
  = host +:+ "/api/v1/collection/" +:+ id +:+ "/stats".
Proof.
  intros Hhost. unfold opensea.urlID, ReplaceAll. cbv zeta.
  rewrite replaceFrom_no_brace by done. f_equal.
Qed.

End ClientCalls.


(** X18. The address of a request: when the host has no opening brace, the
    [{id}] tag of the endpoint is the only one there is, and [urlID] gives
    the host, the path and the id in the place of the tag, whatever the id
    holds. *)
Theorem urlID_replaces_the_tag (host id : string) :
  ("{"%char ∉ list_ascii_of_string host) →
  opensea.urlID opensea.retrieveSingleContractEndpoint host id
  = host +:+ "/api/v1/asset_contract/" +:+ id
  ∧ opensea.urlID opensea.retrieveSingleContractEndpoint host id
    = assetContractAddress host id
  ∧ opensea.urlID opensea.retrieveCollectionStatsEndpoint host id
    = host +:+ "/api/v1/collection/" +:+ id +:+ "/stats".
Proof.
  intros Hhost. split_and!.
  - by rewrite urlID_asset_contract.
  - by apply urlID_asset_contract.
  - by apply urlID_collection_stats.
Qed.


(** *** The version-1 notifier *)

(** X20. [sendTweet] checks the four credentials as [sendTweetV2] does: with
    one of them missing the two do the same, one log line and no call.  With
    all four set it posts one status update, and it panics exactly when the
    update fails without an HTTP response, on the status code it reads for
    the log line. *)
Theorem sendTweet_checks_as_V2 (W : World) (Update : string → UpdateAnswer)
    (collection : opensea.OpenSeaCollection) (count : Z) (twitKey : TwitterKeys) :
  (¬ twitterConfigured twitKey →
   sendTweet Update collection count twitKey = sendTweetV2 W collection count twitKey)
  ∧ (twitterConfigured twitKey →
     ∃ text rest,
       trace (sendTweet Update collection count twitKey) = EvCreateTweet text :: rest
       ∧ logsOnly rest
       ∧ (outcome (sendTweet Update collection count twitKey) = Stop Panicked
          ↔ UpdateError (Update text) ≠ None ∧ RespStatusCode (Update text) = None)
       ∧ (outcome (sendTweet Update collection count twitKey) ≠ Stop Panicked →
          outcome (sendTweet Update collection count twitKey) = Done ())).
Proof.
  split.
  - intros Hnot. unfold sendTweet, sendTweetV2.
    repeat (case_decide; [done|]). destruct Hnot. by split_and!.
  - intros (? & ? & ? & ?). unfold sendTweet. rewrite !decide_False by done.
    cbv zeta. eexists _, _. rewrite Run_bind_trace, Run_bind_result. simpl.
    split; [done|].
    destruct (UpdateError (Update _)) as [err|];
      [destruct (RespStatusCode (Update _)) as [code|]|]; simpl.
    + split_and!; [quiet_trace| |done]. split; [done|]. by intros [_ ?].
    + split_and!; [quiet_trace| |done]. done.
    + split_and!; [quiet_trace| |done]. split; [done|]. by intros [? _].
Qed.

(** *** The two loops together, and the state store *)

Section ScanMore.
Context `{!common.Keccak256}.

Lemma find_firstOccurrences logs vLog i :
  list_find (λ other, identifier other = identifier vLog) logs = Some (i, vLog) →
  vLog ∈ firstOccurrences logs.
Proof.
  revert i. induction logs as [|x rest IH]; intros i; [done|].
  cbn [list_find firstOccurrences]. case_decide as Hx.
  { intros [= _ ->]. left. }
  destruct (list_find _ rest) as [[j y]|] eqn:Hfind; [|done].
  intros [= _ ->]. right. apply list_elem_of_filter. split; [done|]. by eapply IH.
Qed.

(** X21. What the two loops count together: an entry is counted exactly when
    it is a mint and is the first entry of its transaction in the query's
    answer.  A mint that comes after another entry of its transaction is
    not counted, whatever that other entry is. *)
Theorem scan_counts_first_entries (logs : list types.Log) (txLog : types.Log) :
  txLog ∈ MintFilter (Deduplicator logs)
  ↔ transferMint txLog
    ∧ ∃ i, list_find (λ other, identifier other = identifier txLog) logs
           = Some (i, txLog).
Proof.
  unfold MintFilter.
  rewrite list_elem_of_filter, isMint_transferMint, Deduplicator_firstOccurrences.
  split; intros [Hmint Hin]; (split; [done|]).
  - by apply firstOccurrences_find.
  - destruct Hin as [i Hfind]. by eapply find_firstOccurrences.
Qed.

End ScanMore.

(** X22. The state store never ends a run.  [GetStatus] makes one
    [GetObject] call and returns: the empty status, with the error logged,
    when the call fails, and otherwise what the decoder left, also after a
    read error, which it logs.  [SetStatus] makes one [PutObject] call with
    the status it was given and returns; a failed save is logged and
    nothing else. *)
Theorem state_store_errors_are_logged (W : World) (status : Status)
    (s3bucket s3key : string) :
  (∃ loaded rest,
     GetStatus W s3bucket s3key = (EvGetObject s3bucket s3key :: rest, Done loaded)
     ∧ (∀ err, GetObject W s3bucket s3key = inl err →
          loaded = {| Recents := [] |} ∧ rest = [EvLog err])
     ∧ (∀ object, GetObject W s3bucket s3key = inr object →
          loaded = Unmarshaled object
          ∧ rest = match ReadError object with Some err => [EvLog err] | None => [] end))
  ∧ SetStatus W status s3bucket s3key
    = (EvPutObject s3bucket s3key status
       :: match PutObject W s3bucket s3key status with
          | Some err => [EvLog err]
          | None => []
          end, Done ()).
Proof.
  split.
  - unfold GetStatus. cbv zeta.
    destruct (GetObject W s3bucket s3key) as [err|object]; simpl.
    + eexists _, _. split; [done|]. split; [|done]. by intros ? [= <-].
    + destruct (ReadError object) as [err|] eqn:Hread; simpl;
        (eexists _, _; split; [done|]; split; [done|]; intros ? [= <-];
         by rewrite Hread).
  - unfold SetStatus. by destruct (PutObject W s3bucket s3key status).
Qed.

(** ** The properties on example runs *)

#[local] Existing Instance exampleKeccak.

(** The addresses of the example contracts come out the same for every
    hash: they have no letter for the checksum to raise. *)
Lemma AddressHex_mintLog (H : common.Keccak256) (n : nat) :
  common.AddressHex (types.Address (mintLog 0x11 n))
  = "0x1111111111111111111111111111111111111111"
  ∧ common.AddressHex (types.Address (mintLog 0x22 n))
    = "0x2222222222222222222222222222222222222222"
  ∧ common.AddressHex (types.Address (mintLog 0x33 n))
    = "0x3333333333333333333333333333333333333333"
  ∧ common.AddressHex (common.BytesToAddress (replicate 32 0)) = nullAddress.
Proof. split_and!; reflexivity. Qed.

Lemma exampleWorld_metadataAvailable env stored logs resp discord :
  opensea.StatusCode resp = 200 → opensea.ReadAllError resp = None →
  opensea.DecodeError resp = None →
  metadataAvailable (exampleWorld env stored logs (inr resp) discord).
Proof. intros ??? url apiKey. split; [done|]. by exists resp. Qed.

Lemma exampleWorld_discordDelivers env stored logs http msgID :
  discordDelivers (exampleWorld env stored logs http (inr msgID)).
Proof. intros ????. by exists msgID. Qed.

Lemma exampleWorld_reachesScan env stored logs http discord :
  default "" (list_to_map (M := gmap string string) env !! "ETH_NETWORK_URL") ≠ "" →
  default "" (list_to_map (M := gmap string string) env !! "S3_BUCKET") ≠ "" →
  default "" (list_to_map (M := gmap string string) env !! "S3_FILE_KEY") ≠ "" →
  reachesScan (exampleWorld env stored logs http discord) logs.
Proof. intros ???. split_and!; try done. by exists 1000. Qed.

Lemma exampleWorld_ranksWell env stored logs http discord :
  ranksWell (exampleWorld env stored logs http discord).
Proof. intros m. apply rankByWordCount_ranks. Qed.

Lemma mintsOf_topics contract n :
  Forall (λ vLog, types.Topics vLog ≠ []) (mintsOf contract n).
Proof.
  apply Forall_forall. intros vLog (k & -> & _)%list_elem_of_fmap. discriminate.
Qed.

Lemma reverseRanking_ranksWell W : ranksWell (withRanking reverseRanking W).
Proof. intros m. apply sortSort_ranks. apply reverse_Permutation. Qed.

(** With equal counts the order of the ranking is the run's: the two worlds
    record the two contracts in opposite orders. *)
Example processLogs_tied_counts_either_order :
  savedStatuses (trace (processLogs worldTied))
  = [{| Recents := ["0x1111111111111111111111111111111111111111";
                    "0x2222222222222222222222222222222222222222"] |}]
  ∧ savedStatuses (trace (processLogs worldTiedReversed))
    = [{| Recents := ["0x2222222222222222222222222222222222222222";
                      "0x1111111111111111111111111111111111111111"] |}].
Proof. split; vm_compute; reflexivity. Qed.

(** The Deduplicator on an input with a repeated transaction. *)
Example Deduplicator_example :
  Deduplicator [mintLog 0x11 0; mintLog 0x11 1; mintLog 0x11 0; erc20Log; mintLog 0x11 1]
  = [mintLog 0x11 0; mintLog 0x11 1; erc20Log].
Proof. reflexivity. Qed.

Lemma saveStatus_trims_two_witness :
  ∃ saved after,
    trace (saveStatus worldQuiet {| Recents := "a" :: "b" :: "c" :: twoHundred |}
             "alerts" "status.json")
    = EvPutObject "alerts" "status.json" saved :: after
    ∧ (∃ oldest second,
         "a" :: "b" :: "c" :: twoHundred = oldest :: second :: Recents saved)
    ∧ length (Recents saved) = 201%nat.
Proof.
  destruct (saveStatus_trims_two worldQuiet
              {| Recents := "a" :: "b" :: "c" :: twoHundred |}
              "alerts" "status.json") as (saved & after & Ht & _ & Hgt & _).
  exists saved, after. split; [exact Ht|].
  apply Hgt. vm_compute. lia.
Defined.

Lemma announce_gate_witness :
  ¬ notifies (trace (announce
       (exampleWorld requiredEnv (inl "NoSuchKey") []
          (inr {| opensea.StatusCode := 200; opensea.ReadAllError := None;
                  opensea.ErrorOfBody := ""; opensea.Decoded := bareCollection;
                  opensea.DecodeError := None |}) (inr 1))
       (channels worldQuiet "k") {| Recents := ["0xa1"] |}
       {| Key := "0xc3"; Value := 150 |}))
  ∧ outcome (announce
       (exampleWorld requiredEnv (inl "NoSuchKey") []
          (inr {| opensea.StatusCode := 200; opensea.ReadAllError := None;
                  opensea.ErrorOfBody := ""; opensea.Decoded := bareCollection;
                  opensea.DecodeError := None |}) (inr 1))
       (channels worldQuiet "k") {| Recents := ["0xa1"] |}
       {| Key := "0xc3"; Value := 150 |})
    = Done {| Recents := ["0xa1"] |}.
Proof.
  apply (proj1 (proj2 (announce_gate _ _ _ _)) bareCollection); reflexivity.
Defined.

(** C8. An entry without topics is not dropped: the scan of a deduplicated
    sequence that holds one panics on [txLog.Topics[0]]. *)
Lemma countMints_bare_entry_panics :
  Deduplicator [mintLog 0x11 0; bareLog] = [mintLog 0x11 0; bareLog]
  ∧ outcome (countMints [mintLog 0x11 0; bareLog] ∅) = Stop Panicked.
Proof. split; reflexivity. Qed.

Lemma MintFilter_sound_witness :
  countMints [mintLog 0x11 0; erc20Log; mintLog 0x11 1] ∅
  = mret (Aggregator (MintFilter [mintLog 0x11 0; erc20Log; mintLog 0x11 1]) ∅)
  ∧ MintFilter [mintLog 0x11 0; erc20Log; mintLog 0x11 1]
    `sublist_of` [mintLog 0x11 0; erc20Log; mintLog 0x11 1]
  ∧ (∀ txLog, txLog ∈ MintFilter [mintLog 0x11 0; erc20Log; mintLog 0x11 1]
              ↔ txLog ∈ [mintLog 0x11 0; erc20Log; mintLog 0x11 1]
                ∧ transferMint txLog)
  ∧ ∀ txLog, wellFormed txLog →
             txLog ∈ MintFilter [mintLog 0x11 0; erc20Log; mintLog 0x11 1]
             ↔ txLog ∈ [mintLog 0x11 0; erc20Log; mintLog 0x11 1]
               ∧ mintBytes txLog.
Proof.
  apply (MintFilter_sound [mintLog 0x11 0; erc20Log; mintLog 0x11 1]).
  repeat constructor; vm_compute; discriminate.
Defined.

Lemma rankByWordCount_counts_mints_witness :
  sumZ (Value <$> rankByWordCount
          (Aggregator (MintFilter (mintsOf 0x11 3 ++ erc20Log :: mintsOf 0x22 5)) ∅))
  = Z.of_nat (length (MintFilter (mintsOf 0x11 3 ++ erc20Log :: mintsOf 0x22 5)))
  ∧ StronglySorted (λ a b, Value b ≤ Value a)
      (rankByWordCount
         (Aggregator (MintFilter (mintsOf 0x11 3 ++ erc20Log :: mintsOf 0x22 5)) ∅)).
Proof.
  refine (proj1 (rankByWordCount_counts_mints
                   (mintsOf 0x11 3 ++ erc20Log :: mintsOf 0x22 5) _ _ _)).
  - vm_compute. reflexivity.
  - vm_compute. reflexivity.
Defined.

(** The ranking of the same input: eight mints, five of one contract and
    three of the other. *)
Example rankByWordCount_example :
  rankByWordCount
    (Aggregator (MintFilter (mintsOf 0x11 3 ++ erc20Log :: mintsOf 0x22 5)) ∅)
  = [{| Key := "0x2222222222222222222222222222222222222222"; Value := 5 |};
     {| Key := "0x1111111111111111111111111111111111111111"; Value := 3 |}].
Proof. vm_compute. reflexivity. Qed.





(** C3. With the three other required values set and [OPENSEA_API_KEY] not
    set, the run does not stop at the fourth check, which tests [s3key]
    again: it goes on to S3, the node and the OpenSea API, which it calls
    without a key. *)
Theorem processLogs_runs_without_opensea_key :
  Getenv worldNoOpenseaKey "OPENSEA_API_KEY" = ""
  ∧ processLogs worldNoOpenseaKey
    = ([EvGetObject "alerts" "status.json"; EvLog "NoSuchKey";
        EvDial "https://node.example"; EvHeaderByNumber;
        EvLog "Start block: 950   End block: 1000"; EvLog "Querying...";
        EvFilterLogs 950 1000 topicTransfer;
        EvLog "Log entries to process: 101";
        EvLog "Unique transactions to process: 101";
        EvHttpGet
          "https://api.opensea.io/api/v1/asset_contract/0x1111111111111111111111111111111111111111"
          "";
        EvLog
          "Checking for callout 0x1111111111111111111111111111111111111111 (count 101)";
        EvPrint "Call out";
        EvLog
          "Sending tweet. Contract: 0x1111111111111111111111111111111111111111 Slug: apes TwitterId: apes";
        EvLog
          "Twitter Consumer Key environment variable (TWITTER_CONSUMER_KEY) is not set.";
        EvLog "Discord webhook Id and/or webhook token not configured.";
        EvPutObject "alerts" "status.json"
          {| Recents := ["0x1111111111111111111111111111111111111111"] |};
        EvLog "End"],
       Done ()).
Proof. split; vm_compute; reflexivity. Qed.

(** C4. With both channels configured and a webhook execution that fails,
    the tweet is created and then the run panics in [sendDiscordWebhook]:
    nothing is logged for the failure, the loop does not go on and the
    status is not saved. *)
Theorem processLogs_discord_failure_panics :
  outcome (processLogs worldDiscordFails) = Stop Panicked
  ∧ (∃ text content image,
       EvCreateTweet text ∈ trace (processLogs worldDiscordFails)
       ∧ last (trace (processLogs worldDiscordFails))
         = Some (EvWebhookExecute 7 "t" content image))
  ∧ savedStatuses (trace (processLogs worldDiscordFails)) = [].
Proof.
  split_and!.
  - vm_compute. reflexivity.
  - eexists _, _, _. split.
    + apply list_elem_of_In. vm_compute. do 14 right. left. reflexivity.
    + vm_compute. reflexivity.
  - vm_compute. reflexivity.
Qed.

(** C2. From a stored status of 200 addresses, a run that announces three
    new contracts saves 201 addresses: 203 less the two that the trim
    takes off. *)
Theorem processLogs_saves_over_cap :
  (∃ object,
     GetObject worldThreeNew "alerts" "status.json" = inr object
     ∧ length (Recents (Unmarshaled object)) = 200%nat)
  ∧ outcome (processLogs worldThreeNew) = Done ()
  ∧ length ∘ Recents <$> savedStatuses (trace (processLogs worldThreeNew))
    = [201%nat].
Proof.
  split_and!.
  - eexists. split; reflexivity.
  - vm_compute. reflexivity.
  - vm_compute. reflexivity.
Qed.

(** ** The further properties on example runs *)

Lemma Deduplicator_by_TxHash_witness :
  NoDup (types.TxHash <$> Deduplicator [mintLog 0x11 0; mintLog 0x11 1; mintLog 0x11 0])
  ∧ ∀ hash,
      hash ∈ types.TxHash <$> Deduplicator [mintLog 0x11 0; mintLog 0x11 1; mintLog 0x11 0]
      ↔ hash ∈ types.TxHash <$> [mintLog 0x11 0; mintLog 0x11 1; mintLog 0x11 0].
Proof.
  apply (Deduplicator_by_TxHash [mintLog 0x11 0; mintLog 0x11 1; mintLog 0x11 0]).
  repeat (apply Forall_cons; split); try apply Forall_nil; unfold isByte; simpl; lia.
Defined.

Lemma ranked_keys_are_minting_contracts_witness :
  (∃ txLog, txLog ∈ mixedLogs ∧ transferMint txLog
            ∧ contractOf txLog = "0x2222222222222222222222222222222222222222")
  ∧ ("0x2222222222222222222222222222222222222222"
     ∉ [contractAddressOpenSea; contractENS; contractENS2])
  ∧ 5 = wrap64 (Z.of_nat (countOf "0x2222222222222222222222222222222222222222"
                            (MintFilter mixedLogs)))
  ∧ ∀ collection, ∃ rest,
      trace (callOut collection "0x2222222222222222222222222222222222222222" 5)
      = EvLog ("Checking for callout " +:+ "0x2222222222222222222222222222222222222222"
               +:+ " (count " +:+ pretty 5 +:+ ")") :: rest.
Proof.
  apply (ranked_keys_are_minting_contracts mixedLogs
           (Aggregator (MintFilter mixedLogs) ∅)
           (rankByWordCount (Aggregator (MintFilter mixedLogs) ∅))
           {| Key := "0x2222222222222222222222222222222222222222"; Value := 5 |}).
  - vm_compute. reflexivity.
  - apply rankByWordCount_ranks.
  - apply list_elem_of_In. vm_compute. left. reflexivity.
Defined.

Lemma processLogs_saves_loaded_and_new_witness :
  ∃ toBlock logs loaded addressList added saved,
    HeaderByNumber worldTiedReversed = inr toBlock
    ∧ FilterLogs worldTiedReversed (toBlock - newBlocks) toBlock = inr logs
    ∧ outcome (GetStatus worldTiedReversed (Getenv worldTiedReversed "S3_BUCKET")
                 (Getenv worldTiedReversed "S3_FILE_KEY")) = Done loaded
    ∧ outcome (countMints (Deduplicator logs) ∅) = Done addressList
    ∧ added `sublist_of` Key <$> filter (qualifies (Recents loaded))
                                    (Ranking worldTiedReversed addressList)
    ∧ savedStatuses (trace (processLogs worldTiedReversed)) = [saved]
    ∧ saved = trimRecents {| Recents := Recents loaded ++ added |}
    ∧ ((2 ≤ length (Recents loaded))%nat
       ∨ (length (Recents loaded ++ added) ≤ 200)%nat →
       added `suffix_of` Recents saved).
Proof.
  apply (processLogs_saves_loaded_and_new worldTiedReversed). vm_compute. reflexivity.
Defined.

Lemma processLogs_early_failures_witness :
  processLogs worldNodeDown
  = ([EvGetObject "alerts" "status.json"; EvLog "NoSuchKey";
      EvDial "https://node.example"; EvHeaderByNumber; EvLog "node down"],
     Stop Fatal).
Proof.
  refine (proj1 (proj2 (proj2 (processLogs_early_failures worldNodeDown _ _ _)))
            _ _ "node down" _);
    solve [reflexivity | vm_compute; discriminate].
Defined.

Lemma announce_records_without_notifying_witness :
  outcome (announce worldNoOpenseaKey (channels worldNoOpenseaKey "")
             {| Recents := [] |}
             {| Key := "0x1111111111111111111111111111111111111111"; Value := 101 |})
  = Done {| Recents := ["0x1111111111111111111111111111111111111111"] |}
  ∧ ¬ notifies (trace (announce worldNoOpenseaKey (channels worldNoOpenseaKey "")
                         {| Recents := [] |}
                         {| Key := "0x1111111111111111111111111111111111111111";
                            Value := 101 |})).
Proof.
  apply (announce_records_without_notifying worldNoOpenseaKey
           (channels worldNoOpenseaKey "") {| Recents := [] |}
           {| Key := "0x1111111111111111111111111111111111111111"; Value := 101 |}
           exampleCollection).
  - split; [reflexivity|apply not_elem_of_nil].
  - reflexivity.
  - reflexivity.
  - intros [Hkey _]. by apply Hkey.
  - by left.
Defined.

Lemma urlID_replaces_the_tag_witness :
  opensea.urlID opensea.retrieveSingleContractEndpoint "https://api.opensea.io" "0xA1"
  = "https://api.opensea.io/api/v1/asset_contract/0xA1"
  ∧ opensea.urlID opensea.retrieveSingleContractEndpoint "https://api.opensea.io" "0xA1"
    = assetContractAddress "https://api.opensea.io" "0xA1"
  ∧ opensea.urlID opensea.retrieveCollectionStatsEndpoint "https://api.opensea.io" "0xA1"
    = "https://api.opensea.io/api/v1/collection/0xA1/stats".
Proof.
  apply (urlID_replaces_the_tag "https://api.opensea.io" "0xA1").
  intros Hin. apply list_elem_of_In in Hin. simpl in Hin.
  repeat (destruct Hin as [Hin|Hin]; [discriminate|]). exact Hin.
Defined.
